(** * nespal: the palette-matching core, embedded and verified

    The development follows [main.go] of the repository in its revision
    with custom palettes; the older revision has the same [find_closest]
    and [has_palette], word for word, and the same switch on the output
    extension in [remap].  The Go standard library pieces the core
    calls ([image/color], [image], [io], [path/filepath], [strings],
    [math]) are modelled first, each in a module named after its package,
    then the five functions of the program: [load_palette], [find_closest],
    [has_palette], [identify] and [remap].

    Numbers.  Go's [uint8], [uint32] and [int] are modelled as [Z], with the
    truncating conversions written out.  Go's [float64] is IEEE 754
    binary64, which is exactly Rocq's primitive [float], so the floating
    point code of [find_closest] is embedded operation for operation. *)

From Stdlib Require Import ZArith List Lia Bool String Ascii.
From Stdlib.Strings Require Import Byte.
From Stdlib Require Import Floats Uint63.
Import ListNotations.

Local Open Scope string_scope.
Local Open Scope list_scope.
Local Open Scope Z_scope.

(** ** Conversions between Go's numeric types *)

(** [uint8(x)] for an unsigned [x]: the low eight bits. *)
Definition uint8 (x : Z) : Z := Z.land x 255.

(** [float64(x)] for an unsigned integer [x] below [2^63]. *)
Definition float64 (x : Z) : float := PrimFloat.of_uint63 (Uint63.of_Z x).

Module math.
(** [math.MaxFloat64], the largest finite binary64 value. *)
Definition MaxFloat64 : float := 0x1.fffffffffffffp+1023%float.

(** [math.Sqrt], correctly rounded as IEEE 754 requires. *)
Definition Sqrt (x : float) : float := PrimFloat.sqrt x.
End math.

(** ** Package [image/color] *)

Module color.
(** The interface [color.Color] has the single method [RGBA()], which
    returns four [uint32] values; the program uses a colour through that
    method only, so a colour is modelled by what the method returns. *)
Record Color : Type := mkColor { r16 : Z; g16 : Z; b16 : Z; a16 : Z }.

(** The struct [color.RGBA], four [uint8] fields. *)
Record RGBA : Type := mkRGBA { R : Z; G : Z; B : Z; A : Z }.

(** The method [RGBA()] of the struct: each field is widened to sixteen
    bits by [r |= r << 8]. *)
Definition widen (v : Z) : Z := Z.lor v (Z.shiftl v 8).

Definition of_RGBA (c : RGBA) : Color :=
  mkColor (widen (R c)) (widen (G c)) (widen (B c)) (widen (A c)).

(** [color.RGBAModel.Convert]. *)
Definition rgbaModel (c : Color) : RGBA :=
  mkRGBA (uint8 (Z.shiftr (r16 c) 8)) (uint8 (Z.shiftr (g16 c) 8))
         (uint8 (Z.shiftr (b16 c) 8)) (uint8 (Z.shiftr (a16 c) 8)).

(** [color.Palette] is [[]color.Color]. *)
Definition Palette : Type := list Color.

(** The contract of [RGBA()]: every component lies within [0, 0xffff]. *)
Definition in16 (v : Z) : bool := (0 <=? v) && (v <=? 0xffff).

Definition valid (c : Color) : bool :=
  in16 (r16 c) && in16 (g16 c) && in16 (b16 c) && in16 (a16 c).

Definition Color_eqb (c d : Color) : bool :=
  (r16 c =? r16 d) && (g16 c =? g16 d) && (b16 c =? b16 d) && (a16 c =? a16 d).

(** The eight-bit red, green and blue channels of a colour, as the
    program reads them ([uint8(r >> 8)]); alpha is left out. *)
Definition rgb8 (c : Color) : Z * Z * Z :=
  (uint8 (Z.shiftr (r16 c) 8), uint8 (Z.shiftr (g16 c) 8),
   uint8 (Z.shiftr (b16 c) 8)).

Definition rgb_of (c : RGBA) : Z * Z * Z := (R c, G c, B c).

(** A palette entry as [load_palette] builds them: a [color.RGBA] value
    with byte channels and alpha 255. *)
Definition opaque8 (c : Color) : bool :=
  Color_eqb c (of_RGBA (mkRGBA (uint8 (Z.shiftr (r16 c) 8))
                               (uint8 (Z.shiftr (g16 c) 8))
                               (uint8 (Z.shiftr (b16 c) 8)) 255)).
End color.

(** ** [find_closest] *)

(** The body of the loop of [find_closest] up to the comparison: the
    distance between the colour [c] and the palette entry [pcolor].  The
    products and sums are taken one operation at a time, in the order Go
    parses them; a compiler that fuses a product with a sum gives the same
    values here, since every intermediate value is exact (see
    [distance_sqrt] below). *)
Definition distance (c pcolor : color.Color) : float :=
  let cr := color.r16 c in
  let cg := color.g16 c in
  let cb := color.b16 c in
  let pr := color.r16 pcolor in
  let pg := color.g16 pcolor in
  let pb := color.b16 pcolor in
  let distancer := (float64 (Z.shiftr pr 8) - float64 (Z.shiftr cr 8))%float in
  let distanceg := (float64 (Z.shiftr pg 8) - float64 (Z.shiftr cg 8))%float in
  let distanceb := (float64 (Z.shiftr pb 8) - float64 (Z.shiftr cb 8))%float in
  math.Sqrt (2 * distancer * distancer + 3 * distanceg * distanceg
             + 1 * distanceb * distanceb)%float.

(** One iteration of [for _, pcolor := range p], on the pair of loop
    variables [(min_distance, closest)]. *)
Definition find_closest_step (c : color.Color) (st : float * color.RGBA)
    (pcolor : color.Color) : float * color.RGBA :=
  let '(min_distance, closest) := st in
  let pr := color.r16 pcolor in
  let pg := color.g16 pcolor in
  let pb := color.b16 pcolor in
  let d := distance c pcolor in
  if (d <? min_distance)%float
  then (d, color.mkRGBA (uint8 (Z.shiftr pr 8)) (uint8 (Z.shiftr pg 8))
                        (uint8 (Z.shiftr pb 8)) 255)
  else (min_distance, closest).

Definition find_closest (c : color.Color) (p : color.Palette) : color.RGBA :=
  snd (fold_left (find_closest_step c) p
         (math.MaxFloat64, color.mkRGBA 0 0 0 0)).

(** The metric as the specification words it: the weighted sum of squared
    channel differences, with no square root. *)
Definition spec_distance (a b : color.Color) : Z :=
  let dr := Z.shiftr (color.r16 a) 8 - Z.shiftr (color.r16 b) 8 in
  let dg := Z.shiftr (color.g16 a) 8 - Z.shiftr (color.g16 b) 8 in
  let db := Z.shiftr (color.b16 a) 8 - Z.shiftr (color.b16 b) 8 in
  2 * (dr * dr) + 3 * (dg * dg) + 1 * (db * db).

(** The colour [find_closest] returns for a winning palette entry: its
    three byte channels, and alpha 255. *)
Definition opaque_copy (pcolor : color.Color) : color.RGBA :=
  color.mkRGBA (uint8 (Z.shiftr (color.r16 pcolor) 8))
               (uint8 (Z.shiftr (color.g16 pcolor) 8))
               (uint8 (Z.shiftr (color.b16 pcolor) 8)) 255.

(** ** Package [image] *)

Module image.
Record Point : Type := mkPoint { X : Z; Y : Z }.

Record Rectangle : Type := mkRect { Min : Point; Max : Point }.

Definition Dx (r : Rectangle) : Z := X (Max r) - X (Min r).
Definition Dy (r : Rectangle) : Z := Y (Max r) - Y (Min r).

(** [Point.In]. *)
Definition Point_In (p : Point) (r : Rectangle) : bool :=
  (X (Min r) <=? X p) && (X p <? X (Max r)) &&
  (Y (Min r) <=? Y p) && (Y p <? Y (Max r)).

(** The interface [image.Image], through the two methods the program
    calls: [Bounds()] and [At(x, y)]. *)
Record Image : Type := mkImage { Bounds : Rectangle; At : Z -> Z -> color.Color }.

(** The struct [image.RGBA]: its rectangle and its pixel buffer, the
    buffer seen as the colour stored for each point. *)
Record RGBA : Type := mkRGBA { Rect : Rectangle; Pix : Z -> Z -> color.RGBA }.

(** The rectangles for which the allocation of [image.NewRGBA] is
    modelled as succeeding: dimensions that are not negative and a buffer
    length [4 * Dx * Dy] below [2 ^ 63], both taken in unbounded integers.
    It is not Go's own test, which differs from it near the limits of
    [int]: Go computes [Dx] and [Dy] in wrapping 64-bit arithmetic, refuses
    as soon as [4 * Dx] leaves 64 bits, also when [Dy] is zero, and [make]
    panics on a length above the allocation limit of the platform.  The
    properties of [remap] below therefore either take [fits] as a side
    condition that stands for an allocation that succeeds, or hold
    whichever way the allocation ends. *)
Definition fits (r : Rectangle) : bool :=
  (0 <=? Dx r) && (0 <=? Dy r) && (4 * Dx r * Dy r <? 2 ^ 63).

Definition NewRGBA (r : Rectangle) : option RGBA :=
  if fits r then Some (mkRGBA r (fun _ _ => color.mkRGBA 0 0 0 0)) else None.

(** The method [Set] of [image.RGBA], named [RGBASet] because [Set] is a
    reserved word: the colour is converted by the RGBA model and stored;
    nothing happens outside the rectangle. *)
Definition RGBASet (p : RGBA) (x y : Z) (c : color.Color) : RGBA :=
  if Point_In (mkPoint x y) (Rect p)
  then mkRGBA (Rect p)
         (fun x' y' => if (x' =? x) && (y' =? y) then color.rgbaModel c
                       else Pix p x' y')
  else p.

(** The method [RGBAAt]: the zero colour outside the rectangle. *)
Definition RGBAAt (p : RGBA) (x y : Z) : color.RGBA :=
  if Point_In (mkPoint x y) (Rect p) then Pix p x y
  else color.mkRGBA 0 0 0 0.
End image.

(** ** Errors, readers and files *)

(** The values of Go's [error] interface that the program meets. *)
Inductive error : Type :=
| EOF                              (* io.EOF *)
| ErrUnexpectedEOF                 (* io.ErrUnexpectedEOF *)
| errorString (msg : string)       (* errors.New, fmt.Errorf *)
| PathError (op path : string).    (* fs.PathError *)

Module io.
(** An [io.Reader], modelled by the bytes it has left to give. *)
Definition Reader : Type := list byte.

(** [io.ReadFull(r, buf)] with [len(buf) = n]: the buffer after the call
    and the error.  A source that ends early gives [EOF] when nothing was
    read and [ErrUnexpectedEOF] otherwise. *)
Definition ReadFull (r : Reader) (n : nat) : list byte * option error :=
  let buf := firstn n r ++ repeat x00 (n - List.length r) in
  if (n <=? List.length r)%nat then (buf, None)
  else match r with
       | [] => (buf, Some EOF)
       | _ :: _ => (buf, Some ErrUnexpectedEOF)
       end.
End io.

Module os.
(** An open [os.File]: its name and what can be read from it. *)
Record File : Type := mkFile { Name : string; content : io.Reader }.
End os.

Module fs.
(** An [fs.DirEntry] of the embedded palette directory. *)
Record DirEntry : Type := mkDirEntry { Name : string; IsDir : bool }.
End fs.

Module strings.
(** [strings.HasSuffix]. *)
Definition HasSuffix (s suffix : string) : bool :=
  (String.length suffix <=? String.length s)%nat &&
  String.eqb (substring (String.length s - String.length suffix)
                        (String.length suffix) s) suffix.

(** [strings.TrimSuffix]. *)
Definition TrimSuffix (s suffix : string) : string :=
  if HasSuffix s suffix
  then substring 0 (String.length s - String.length suffix) s
  else s.
End strings.

Module filepath.
(** [os.IsPathSeparator], for Unix paths. *)
Definition IsPathSeparator (c : ascii) : bool := Ascii.eqb c "/"%char.

(** The loop of [filepath.Ext], [for i := len(path) - 1; i >= 0 &&
    !os.IsPathSeparator(path[i]); i--]; the argument [n] is [i + 1]. *)
Fixpoint Ext_from (path : string) (n : nat) : string :=
  match n with
  | O => EmptyString
  | S i =>
      match String.get i path with
      | None => EmptyString
      | Some c =>
          if IsPathSeparator c then EmptyString
          else if Ascii.eqb c "."%char
               then substring i (String.length path - i) path
               else Ext_from path i
      end
  end.

Definition Ext (path : string) : string := Ext_from path (String.length path).

(** [filepath.Join(dir, name)] for two clean, non-empty elements. *)
Definition Join (dir name : string) : string := (dir ++ "/" ++ name)%string.
End filepath.

(** The slice expression [s[1:]] on a string; [None] is the run-time
    panic (slice bounds out of range) that Go raises when [len(s) < 1]. *)
Definition slice_from_1 (s : string) : option string :=
  match s with
  | EmptyString => None
  | String _ rest => Some rest
  end.

(** A call either returns or panics. *)
Inductive outcome (A : Type) : Type :=
| Returns (a : A)
| Panics (msg : string).
Arguments Returns {A} a.
Arguments Panics {A} msg.

(** What the program sees of the world around it: its own name [ex], the
    embedded file system [palettes], [os.Create] and the two encoders. *)
Record Env : Type := mkEnv {
  ex : string;
  palettes_ReadDir : string -> list fs.DirEntry * option error;
  palettes_Open : string -> io.Reader * option error;
  os_Create : string -> option error;
  png_Encode : image.RGBA -> option error;
  jpeg_Encode : image.RGBA -> option error
}.

(** What a call of [identify] does that can be observed from outside. *)
Inductive event : Type :=
| EvPrintln (line : string)
| EvReadDir (dir : string)
| EvOpen (path : string).

(** ** [load_palette] *)

Definition PALETTE_SIZE : nat := 64.

Definition byte_at (data : list byte) (i : nat) : Z :=
  Z.of_N (Byte.to_N (nth i data x00)).

Definition load_palette (pal : io.Reader) : color.Palette * option error :=
  let '(data, err) := io.ReadFull pal (PALETTE_SIZE * 3) in
  match err with
  | Some e => ([], Some e)
  | None =>
      (map (fun i => color.of_RGBA
                       (color.mkRGBA (byte_at data (i * 3)) (byte_at data (i * 3 + 1))
                                     (byte_at data (i * 3 + 2)) 255))
           (seq 0 PALETTE_SIZE),
       None)
  end.

(** The older revision of [load_palette] takes a path: it opens the file
    with [os.Open], returns the error of a failed open, and then reads as
    above. *)
Definition load_palette_path (os_Open : string -> io.Reader * option error)
    (path : string) : color.Palette * option error :=
  let '(file, err) := os_Open path in
  match err with
  | Some e => ([], Some e)
  | None => load_palette file
  end.

(** ** [has_palette] *)

(** The values a loop [for i := lo; i < hi; i++] gives to [i].  [zrange lo n]
    is [lo, lo + 1, ..., lo + n - 1]. *)
Fixpoint zrange (lo : Z) (n : nat) : list Z :=
  match n with
  | O => []
  | S k => lo :: zrange (lo + 1) k
  end.

Definition columns (b : image.Rectangle) : list Z :=
  zrange (image.X (image.Min b)) (Z.to_nat (image.Dx b)).

Definition rows (b : image.Rectangle) : list Z :=
  zrange (image.Y (image.Min b)) (Z.to_nat (image.Dy b)).

(** The test of the inner loop body: [rc != c.R || gc != c.G || bc != c.B]. *)
Definition mismatch (img : image.Image) (p : color.Palette) (x y : Z) : bool :=
  let c := find_closest (image.At img x y) p in
  let px := image.At img x y in
  let rc := uint8 (Z.shiftr (color.r16 px) 8) in
  let gc := uint8 (Z.shiftr (color.g16 px) 8) in
  let bc := uint8 (Z.shiftr (color.b16 px) 8) in
  negb (rc =? color.R c) || negb (gc =? color.G c) || negb (bc =? color.B c).

(** The inner loop over [x]: [false] when the body returned [false], with
    the points that were read through [img.At], in order. *)
Fixpoint has_palette_row (img : image.Image) (p : color.Palette) (y : Z)
    (xs : list Z) : bool * list image.Point :=
  match xs with
  | [] => (true, [])
  | x :: xs' =>
      if mismatch img p x y then (false, [image.mkPoint x y])
      else let '(r, seen) := has_palette_row img p y xs' in
           (r, image.mkPoint x y :: seen)
  end.

(** The outer loop over [y]. *)
Fixpoint has_palette_rows (img : image.Image) (p : color.Palette)
    (ys xs : list Z) : bool * list image.Point :=
  match ys with
  | [] => (true, [])
  | y :: ys' =>
      let '(r, seen) := has_palette_row img p y xs in
      if r then let '(r', seen') := has_palette_rows img p ys' xs in
                (r', seen ++ seen')
      else (false, seen)
  end.

(** [has_palette], with the points it visited. *)
Definition has_palette_visits (img : image.Image) (p : color.Palette)
    : bool * list image.Point :=
  let bounds := image.Bounds img in
  has_palette_rows img p (rows bounds) (columns bounds).

Definition has_palette (img : image.Image) (p : color.Palette) : bool :=
  fst (has_palette_visits img p).

(** ** [identify] *)

Definition no_match_line : string := "No palette matches this image colorscheme".

Definition found_line (name : string) : string :=
  ("The palette used in this image was:" ++ " " ++ strings.TrimSuffix name ".pal")%string.

(** The first loop, over [custom_pals]: [Some] is a [return] from inside
    the loop, [None] its normal end. *)
Fixpoint identify_custom (img : image.Image) (custom_pals : list os.File)
    : option (Z * option error) * list event :=
  match custom_pals with
  | [] => (None, [])
  | pal :: rest =>
      let '(p, err) := load_palette (os.content pal) in
      match err with
      | Some e => (Some (1, Some e), [])
      | None =>
          if has_palette img p
          then (Some (0, None), [EvPrintln (found_line (os.Name pal))])
          else identify_custom img rest
      end
  end.

(** The second loop, over the entries of the embedded directory. *)
Fixpoint identify_builtin (env : Env) (img : image.Image)
    (entries : list fs.DirEntry) : option (Z * option error) * list event :=
  match entries with
  | [] => (None, [])
  | entry :: rest =>
      let filename := fs.Name entry in
      if fs.IsDir entry || negb (String.eqb (filepath.Ext filename) ".pal")
      then identify_builtin env img rest
      else
        let path := filepath.Join "palettes" filename in
        let '(file, err) := palettes_Open env path in
        match err with
        | Some e => (Some (1, Some e), [EvOpen path])
        | None =>
            let '(p, err) := load_palette file in
            match err with
            | Some e => (Some (1, Some e), [EvOpen path])
            | None =>
                if has_palette img p
                then (Some (0, None), [EvOpen path; EvPrintln (found_line filename)])
                else let '(r, evs) := identify_builtin env img rest in
                     (r, EvOpen path :: evs)
            end
        end
  end.

Definition missing_candidate (env : Env) : error :=
  errorString (ex env ++ ": flag 'custom-only' reguires input color palettes")%string.

Definition identify (env : Env) (img : image.Image) (custom_pals : list os.File)
    (custom_only : bool) : (Z * option error) * list event :=
  match identify_custom img custom_pals with
  | (Some ret, evs) => (ret, evs)
  | (None, evs) =>
      if custom_only && (0 <? List.length custom_pals)%nat then ((0, None), evs)
      else if custom_only then ((2, Some (missing_candidate env)), evs)
      else
        let '(entries, err) := palettes_ReadDir env "palettes" in
        match err with
        | Some e => ((1, Some e), evs ++ [EvReadDir "palettes"])
        | None =>
            match identify_builtin env img entries with
            | (Some ret, evs') => (ret, evs ++ EvReadDir "palettes" :: evs')
            | (None, evs') =>
                ((0, None), evs ++ EvReadDir "palettes" :: evs' ++ [EvPrintln no_match_line])
            end
        end
  end.

(** ** [remap] *)

(** The two loops of [remap], which fill [remapped]. *)
Definition remap_row (img : image.Image) (p : color.Palette) (xs : list Z)
    (remapped : image.RGBA) (y : Z) : image.RGBA :=
  fold_left
    (fun dst x =>
       image.RGBASet dst x y (color.of_RGBA (find_closest (image.At img x y) p)))
    xs remapped.

Definition remap_image (img : image.Image) (p : color.Palette) : option image.RGBA :=
  let bounds := image.Bounds img in
  match image.NewRGBA bounds with
  | None => None
  | Some remapped =>
      Some (fold_left (remap_row img p (columns bounds)) (rows bounds) remapped)
  end.

Definition unsupported_output : error :=
  errorString "Output type is not a supported format".

Definition remap (env : Env) (img : image.Image) (pal : io.Reader)
    (dst_path : string) : outcome (Z * option error) :=
  let '(p, err) := load_palette pal in
  match err with
  | Some e => Returns (1, Some e)
  | None =>
      match os_Create env dst_path with
      | Some e => Returns (1, Some e)
      | None =>
          match remap_image img p with
          | None => Panics "image: NewRGBA Rectangle has huge or negative dimensions"
          | Some remapped =>
              match slice_from_1 (filepath.Ext dst_path) with
              | None => Panics "slice bounds out of range [1:0]"
              | Some ext =>
                  let finish (err : option error) :=
                    match err with
                    | Some e => Returns (1, Some e)
                    | None => Returns (0, None)
                    end in
                  if String.eqb ext "png" then finish (png_Encode env remapped)
                  else if String.eqb ext "jpg" || String.eqb ext "jpeg"
                       then finish (jpeg_Encode env remapped)
                       else Returns (2, Some unsupported_output)
              end
          end
      end
  end.

(** ** Concrete values used in examples *)

Definition rgb (r g b : Z) : color.Color :=
  color.of_RGBA (color.mkRGBA r g b 255).

(** An image of one pixel at the origin. *)
Definition one_pixel (c : color.Color) : image.Image :=
  image.mkImage (image.mkRect (image.mkPoint 0 0) (image.mkPoint 1 1)) (fun _ _ => c).

(** A palette file: black, white, then sixty-two black entries. *)
Definition black_white_file : io.Reader :=
  [x00; x00; x00; xff; xff; xff] ++ repeat x00 186.

Definition calm_env : Env :=
  mkEnv "nespal" (fun _ => ([], None)) (fun _ => ([], None)) (fun _ => None)
        (fun _ => None) (fun _ => None).

(** ** Reference notions used in the statements *)

(** The points of a rectangle in the order the two nested loops meet them:
    row by row, each row from left to right. *)
Definition points (b : image.Rectangle) : list image.Point :=
  flat_map (fun y => map (fun x => image.mkPoint x y) (columns b)) (rows b).

(** The points a scan reads when it stops at the first point that is
    [bad]: everything up to that point, the point included. *)
Fixpoint scanned (bad : image.Point -> bool) (pts : list image.Point)
    : list image.Point :=
  match pts with
  | [] => []
  | pt :: rest => if bad pt then [pt] else pt :: scanned bad rest
  end.

Definition mismatch_at (img : image.Image) (p : color.Palette)
    (pt : image.Point) : bool :=
  mismatch img p (image.X pt) (image.Y pt).

(** A [color.RGBA] value whose four fields are bytes. *)
Definition is_byte (v : Z) : bool := (0 <=? v) && (v <? 256).

Definition bytes_RGBA (c : color.RGBA) : bool :=
  is_byte (color.R c) && is_byte (color.G c) && is_byte (color.B c) &&
  is_byte (color.A c).

(** A candidate palette source that decodes and does not verify [img]. *)
Definition rejects (img : image.Image) (src : io.Reader) : bool :=
  match load_palette src with
  | (p, None) => negb (has_palette img p)
  | (_, Some _) => false
  end.

(** The entries of the embedded directory that [identify] tries. *)
Definition is_candidate (entry : fs.DirEntry) : bool :=
  negb (fs.IsDir entry || negb (String.eqb (filepath.Ext (fs.Name entry)) ".pal")).

(** Every built-in candidate opens, decodes and does not verify [img]. *)
Definition builtin_rejects (env : Env) (img : image.Image) (entry : fs.DirEntry) : bool :=
  match palettes_Open env (filepath.Join "palettes" (fs.Name entry)) with
  | (file, None) => rejects img file
  | (_, Some _) => false
  end.

(** An environment whose embedded directory holds the one palette file
    [bw.pal], with the content of [black_white_file]. *)
Definition one_builtin_env : Env :=
  mkEnv "nespal"
        (fun _ => ([fs.mkDirEntry "bw.pal" false], None))
        (fun _ => (black_white_file, None))
        (fun _ => None) (fun _ => None) (fun _ => None).

(** ** Finite checks on the binary64 arithmetic of [distance]

    Every value that arises inside [distance] before the square root is a
    small integer, and binary64 represents it exactly.  The checks below
    run over all byte values with the machine's own operations; the lemmas
    further down turn them into statements about [float64] on [Z]. *)

Definition fl (i : int) : float := PrimFloat.of_uint63 i.

Definition ibytes : list int := map Uint63.of_Z (zrange 0 256).

(** [w * d * d] for a channel difference [d = p - c], at weight [w]. *)
Definition square_term_exact (W : float) (w : int) : bool :=
  forallb (fun p => forallb (fun c =>
      PrimFloat.Leibniz.eqb
        (W * (fl p - fl c) * (fl p - fl c))%float
        (fl (w * ((p - c) * (p - c)))%uint63)) ibytes) ibytes.

Definition weighted_squares (w : int) : list int :=
  map (fun d => (w * (d * d))%uint63) ibytes.

Definition pair_sums (xs ys : list int) : list int :=
  flat_map (fun a => map (fun b => (a + b)%uint63) ys) xs.

Definition sum_exact (xs ys : list int) : bool :=
  forallb (fun s => forallb (fun t =>
      PrimFloat.Leibniz.eqb (fl s + fl t)%float (fl (s + t)%uint63)) ys) xs.

(** The largest weighted sum: [2 * 255^2 + 3 * 255^2 + 255^2]. *)
Definition max_sum : Z := 390150.

(** The square root is strictly increasing from each integer to the next. *)
Definition sqrt_increasing : bool :=
  forallb (fun n => (math.Sqrt (fl n) <? math.Sqrt (fl (n + 1)%uint63))%float)
          (map Uint63.of_Z (zrange 0 (Z.to_nat max_sum))).

(** ** An [image.RGBA] seen as an [image.Image] *)

(** The methods [Bounds] and [At] of [image.RGBA]: [At] returns the colour
    [RGBAAt] gives, as a [color.Color]. *)
Definition RGBA_Image (m : image.RGBA) : image.Image :=
  image.mkImage (image.Rect m) (fun x y => color.of_RGBA (image.RGBAAt m x y)).

(** A string with no dot and no path separator: an extension, or a file
    name without one. *)
Fixpoint plain (s : string) : bool :=
  match s with
  | EmptyString => true
  | String c rest =>
      negb (Ascii.eqb c "."%char) && negb (filepath.IsPathSeparator c) && plain rest
  end.

(** ** [run]: the command line *)

Definition IDENTIFY : string := "identify".
Definition REMAP : string := "remap".
Definition LIST : string := "list".
Definition HELP : string := "help".

(** The struct [Command]. *)
Record Command : Type := mkCommand { Desc : string; Usage : string; Doc : string }.

(** [pflag.Parse()] either ends the process (a flag it does not know, or a
    request for help) or leaves the value of the one flag the command
    defines and the arguments that are not flags. *)
Inductive parsed (A : Type) : Type :=
| ParseExits (status : Z)
| Parsed (flag : A) (args : list string).
Arguments ParseExits {A} status.
Arguments Parsed {A} flag args.

(** How a call of [run] ends: it returns a status, the process exits inside
    [pflag.Parse], or it panics. *)
Inductive ending : Type :=
| Return (status : Z)
| Exit (status : Z)
| Panic (msg : string).

(** What [run] does that can be observed, in order. *)
Inductive run_event : Type :=
| RunPrintln (text : string)        (* println *)
| RunPrintf (text : string)         (* fmt.Printf *)
| RunLogf (text : string)           (* log.Printf *)
| RunLogln (text : string)          (* log.Println of a string *)
| RunLog (err : error)              (* log.Println(err) *)
| RunLoadImage (path : string)      (* load_image: os.Open, image.Decode *)
| RunOpen (path : string)           (* os.Open of a palette *)
| RunWalk                           (* fs.WalkDir(palettes, ".") *)
| RunCore (ev : event).             (* what identify does *)

(** The command line and the library calls of [run] that are not part of
    the program: the arguments, the texts of [get_commands] and [get_help],
    the flag parser for each of the two commands with a flag, the image
    decoder, [os.Open], the walk of the embedded file system (the entries
    [fs.WalkDir] passes to its callback, in order, each with the error it
    passes), and the three Unicode functions of the palette flag. *)
Record Cli : Type := mkCli {
  env : Env;
  os_Args : list string;
  command_text : string -> Command;
  help : string;
  pflag_custom_only : list string -> parsed bool;
  pflag_palette : list string -> parsed string;
  load_image : string -> image.Image * option error;
  os_Open : string -> io.Reader * option error;
  palettes_Walk : list (fs.DirEntry * option error);
  runes : string -> list Z;
  unicode_IsSpace : Z -> bool;
  strings_EqualFold : string -> string -> bool
}.

Definition quote : string := String (Ascii.ascii_of_nat 34) EmptyString.
Definition newline : string := String (Ascii.ascii_of_nat 10) EmptyString.

(** The keys of the map [get_commands] returns. *)
Definition is_command (name : string) : bool :=
  String.eqb name IDENTIFY || String.eqb name REMAP || String.eqb name LIST.

(** [strings.Contains(s, ".")]. *)
Fixpoint contains_dot (s : string) : bool :=
  match s with
  | EmptyString => false
  | String c rest => Ascii.eqb c "."%char || contains_dot rest
  end.

Definition index_panic : string := "index out of range".

Definition unsupported_palette (cli : Cli) (path : string) : string :=
  (ex (env cli) ++ ": usupported palette file format for '" ++ path
   ++ "', expected '.pal'" ++ newline)%string.

(** The loop of the [identify] command that opens the custom palettes,
    [for i := range custom_pals]; [paths] is [args[2:]].  [Some] is a
    [return] from inside the loop. *)
Fixpoint open_custom_pals (cli : Cli) (paths : list string)
    : (ending + list os.File) * list run_event :=
  match paths with
  | [] => (inr [], [])
  | path :: rest =>
      if negb (String.eqb (filepath.Ext path) ".pal")
      then match nth_error (os_Args cli) 3 with
           | None => (inl (Panic index_panic), [])
           | Some shown => (inl (Return 2), [RunLogf (unsupported_palette cli shown)])
           end
      else
        let '(file, err) := os_Open cli path in
        match err with
        | Some e => (inl (Return 1), [RunOpen path; RunLog e])
        | None =>
            let '(r, evs) := open_custom_pals cli rest in
            (match r with
             | inl stop => inl stop
             | inr files => inr (os.mkFile path file :: files)
             end, RunOpen path :: evs)
        end
  end.

(** The [identify] command. *)
Definition run_identify (cli : Cli) : ending * list run_event :=
  match pflag_custom_only cli (tl (os_Args cli)) with
  | ParseExits status => (Exit status, [])
  | Parsed custom_only args =>
      if (List.length args =? 1)%nat
      then (Return 2, [RunLogf (ex (env cli) ++ ": missing image file" ++ newline)])
      else
        match nth_error args 1 with
        | None => (Panic index_panic, [])
        | Some image_path =>
            let '(source, err) := load_image cli image_path in
            match err with
            | Some e => (Return 1, [RunLoadImage image_path; RunLog e])
            | None =>
                match open_custom_pals cli (skipn 2 args) with
                | (inl stop, evs) => (stop, RunLoadImage image_path :: evs)
                | (inr custom_pals, evs) =>
                    let '((status, err), core) :=
                      identify (env cli) source custom_pals custom_only in
                    match err with
                    | Some e =>
                        (Return status,
                         RunLoadImage image_path :: evs ++ map RunCore core ++ [RunLog e])
                    | None =>
                        (Return 0, RunLoadImage image_path :: evs ++ map RunCore core)
                    end
                end
            end
        end
  end.

(** The loop of the [remap] command over the embedded directory, which
    looks for the palette named by the flag: [pal] is the file found so
    far, and a later entry with a matching name replaces it. *)
Fixpoint find_builtin (cli : Cli) (chosen_pal : string) (entries : list fs.DirEntry)
    (pal : option io.Reader) : (error + option io.Reader) :=
  match entries with
  | [] => inr pal
  | d :: rest =>
      if fs.IsDir d then find_builtin cli chosen_pal rest pal
      else if strings.HasSuffix (fs.Name d) ".pal"
              && strings_EqualFold cli chosen_pal (strings.TrimSuffix (fs.Name d) ".pal")
           then
             let '(file, err) :=
               palettes_Open (env cli) (filepath.Join "palettes" (fs.Name d)) in
             match err with
             | Some e => inl e
             | None => find_builtin cli chosen_pal rest (Some file)
             end
           else find_builtin cli chosen_pal rest pal
  end.

(** The call of [remap] at the end of both branches of the command. *)
Definition run_remap_call (cli : Cli) (source : image.Image) (pal : io.Reader)
    (dst_path : string) (evs : list run_event) : ending * list run_event :=
  match remap (env cli) source pal dst_path with
  | Panics msg => (Panic msg, evs)
  | Returns (status, Some e) => (Return status, evs ++ [RunLog e])
  | Returns (_, None) => (Return 0, evs)
  end.

(** The [remap] command. *)
Definition run_remap (cli : Cli) : ending * list run_event :=
  match pflag_palette cli (tl (os_Args cli)) with
  | ParseExits status => (Exit status, [])
  | Parsed chosen_pal args =>
      if (List.length args =? 1)%nat
      then (Return 2, [RunLogf (ex (env cli) ++ ": missing image file" ++ newline)])
      else
        match nth_error args 1 with
        | None => (Panic index_panic, [])
        | Some image_path =>
            let '(source, err) := load_image cli image_path in
            match err with
            | Some e => (Return 1, [RunLoadImage image_path; RunLog e])
            | None =>
                let loaded := [RunLoadImage image_path] in
                if negb (String.eqb chosen_pal "")
                then
                  if match filter (fun r => negb (unicode_IsSpace cli r))
                                  (runes cli chosen_pal) with
                     | [] => true
                     | _ :: _ => false
                     end
                  then (Return 2,
                        loaded ++ [RunLogf (ex (env cli) ++ ": empty value for '--palette' flag")])
                  else if contains_dot chosen_pal
                  then (Return 2,
                        loaded ++ [RunLogf (ex (env cli) ++ ": invalid value '" ++ chosen_pal
                                            ++ "' for '--palette' flag")])
                  else
                    let '(entries, err) := palettes_ReadDir (env cli) "palettes" in
                    match err with
                    | Some e => (Return 1, loaded ++ [RunLog e])
                    | None =>
                        match find_builtin cli chosen_pal entries None with
                        | inl e => (Return 1, loaded ++ [RunLog e])
                        | inr None =>
                            (Return 2,
                             loaded ++ [RunLogf (ex (env cli) ++ ": palette '" ++ chosen_pal
                                                 ++ "' not in the palette list")])
                        | inr (Some pal) =>
                            if (List.length args =? 2)%nat
                            then (Return 2,
                                  loaded ++ [RunLogf (ex (env cli) ++ ": missing output image"
                                                      ++ newline)])
                            else
                              match nth_error args 2 with
                              | None => (Panic index_panic, loaded)
                              | Some dst_path => run_remap_call cli source pal dst_path loaded
                              end
                        end
                    end
                else
                  if (List.length args =? 2)%nat
                  then (Return 2,
                        loaded ++ [RunLogf (ex (env cli) ++ ": missing color palette" ++ newline)])
                  else
                    match nth_error args 2 with
                    | None => (Panic index_panic, loaded)
                    | Some pal_path =>
                        if negb (String.eqb (filepath.Ext pal_path) ".pal")
                        then (Return 2, loaded ++ [RunLogf (unsupported_palette cli pal_path)])
                        else if (List.length args =? 3)%nat
                        then (Return 2,
                              loaded ++ [RunLogf (ex (env cli) ++ ": missing output image"
                                                  ++ newline)])
                        else
                          let '(input_pal, err) := os_Open cli pal_path in
                          match err with
                          | Some e => (Return 1, loaded ++ [RunOpen pal_path; RunLog e])
                          | None =>
                              match nth_error args 3 with
                              | None => (Panic index_panic, loaded ++ [RunOpen pal_path])
                              | Some dst_path =>
                                  run_remap_call cli source input_pal dst_path
                                    (loaded ++ [RunOpen pal_path])
                              end
                          end
                    end
            end
        end
  end.

(** The callback of the [list] command, over the entries of the walk:
    [Some e] is the error that stops the walk. *)
Fixpoint list_walk (entries : list (fs.DirEntry * option error))
    : option error * list run_event :=
  match entries with
  | [] => (None, [])
  | (d, Some e) :: _ => (Some e, [])
  | (d, None) :: rest =>
      let '(r, evs) := list_walk rest in
      if fs.IsDir d then (r, evs)
      else if strings.HasSuffix (fs.Name d) ".pal"
           then (r, RunPrintln (strings.TrimSuffix (fs.Name d) ".pal") :: evs)
           else (r, evs)
  end.

Definition run_list (cli : Cli) : ending * list run_event :=
  match list_walk (palettes_Walk cli) with
  | (Some e, evs) => (Return 1, RunWalk :: evs ++ [RunLog e])
  | (None, evs) => (Return 0, RunWalk :: evs)
  end.

(** The [help] command. *)
Definition run_help (cli : Cli) : ending * list run_event :=
  if (List.length (os_Args cli) =? 2)%nat
  then (Return 0, [RunPrintln (help cli)])
  else
    match nth_error (os_Args cli) 2 with
    | None => (Panic index_panic, [])
    | Some topic =>
        if is_command topic
        then (Return 0,
              [RunPrintf ("Usage: " ++ Usage (command_text cli topic) ++ newline ++ newline);
               RunPrintln (Doc (command_text cli topic))])
        else (Return 2,
              [RunLogf (ex (env cli) ++ ": unknown help topic " ++ quote ++ topic ++ quote
                        ++ newline);
               RunLogln ("Try: " ++ ex (env cli) ++ " " ++ HELP)])
    end.

(** [run]. *)
Definition run (cli : Cli) : ending * list run_event :=
  match os_Args cli with
  | [] => (Panic "slice bounds out of range [1:0]", [])
  | _ :: [] =>
      (Return 2,
       [RunPrintln (help cli);
        RunLogf (newline ++ ex (env cli) ++ ": missing command" ++ newline)])
  | _ :: command :: _ =>
      if negb (is_command command) && negb (String.eqb command HELP)
      then (Return 2,
            [RunLogf (ex (env cli) ++ ": unknown command " ++ quote ++ command ++ quote
                      ++ newline);
             RunLogf ("Try: " ++ ex (env cli) ++ " " ++ HELP)])
      else if String.eqb command IDENTIFY then run_identify cli
      else if String.eqb command REMAP then run_remap cli
      else if String.eqb command LIST then run_list cli
      else if String.eqb command HELP then run_help cli
      else (Return 0, [])
  end.

(** The statuses [run] returns. *)
Definition usage_status (s : Z) : Prop := s = 0 \/ s = 1 \/ s = 2.

(** A command line for examples: no flag is given, so the parser leaves
    every argument in place; every image path decodes to one white pixel
    and every palette path opens on the black-and-white palette. *)
Definition example_cli (args : list string) : Cli :=
  mkCli one_builtin_env args
        (fun name => mkCommand "" name "")
        "help text"
        (fun args => Parsed false args)
        (fun args => Parsed "" args)
        (fun _ => (one_pixel (rgb 255 255 255), None))
        (fun _ => (black_white_file, None))
        [(fs.mkDirEntry "." true, None); (fs.mkDirEntry "palettes" true, None);
         (fs.mkDirEntry "COPYING" false, None); (fs.mkDirEntry "bw.pal" false, None)]
        (fun _ => [])
        (fun _ => false)
        String.eqb.

(** The same with the flag [--palette=BW]. *)
Definition example_cli_palette (args : list string) : Cli :=
  mkCli one_builtin_env ("nespal" :: "remap" :: "--palette=BW" :: args)
        (fun name => mkCommand "" name "")
        "help text"
        (fun args => Parsed false args)
        (fun _ => Parsed "BW" ("remap" :: args))
        (fun _ => (one_pixel (rgb 255 255 255), None))
        (fun _ => (black_white_file, None))
        []
        (fun _ => [66; 87])
        (fun _ => false)
        (fun a b => String.eqb a "BW" && String.eqb b "bw").

(** An entry of the embedded directory that the flag value names: a file
    whose name ends in [.pal] and equals the value, under Unicode case
    folding, once the suffix is removed. *)
Definition names_builtin (cli : Cli) (chosen_pal : string) (d : fs.DirEntry) : bool :=
  negb (fs.IsDir d) && strings.HasSuffix (fs.Name d) ".pal"
  && strings_EqualFold cli chosen_pal (strings.TrimSuffix (fs.Name d) ".pal").

(** What [run] returns for a call of [remap] with the given ending. *)
Definition ending_of_remap (r : outcome (Z * option error)) : ending :=
  match r with
  | Panics msg => Panic msg
  | Returns (status, _) => Return status
  end.

(** ** The older [remap]

    The older revision of [remap] takes the image only and reads the two
    paths from the command line: [os.Args[3]] is the palette, [os.Args[4]]
    the output.  The rest is the text of the newer one. *)
Definition remap_old (e : Env) (os_Open : string -> io.Reader * option error)
    (os_Args : list string) (img : image.Image) : outcome (Z * option error) :=
  match nth_error os_Args 3 with
  | None => Panics index_panic
  | Some pal_path =>
      let '(palette, err) := load_palette_path os_Open pal_path in
      match err with
      | Some e => Returns (1, Some e)
      | None =>
          match nth_error os_Args 4 with
          | None => Panics index_panic
          | Some dst_path =>
              match os_Create e dst_path with
              | Some e => Returns (1, Some e)
              | None =>
                  match remap_image img palette with
                  | None => Panics "image: NewRGBA Rectangle has huge or negative dimensions"
                  | Some remapped =>
                      match slice_from_1 (filepath.Ext dst_path) with
                      | None => Panics "slice bounds out of range [1:0]"
                      | Some ext =>
                          let finish (err : option error) :=
                            match err with
                            | Some e => Returns (1, Some e)
                            | None => Returns (0, None)
                            end in
                          if String.eqb ext "png" then finish (png_Encode e remapped)
                          else if String.eqb ext "jpg" || String.eqb ext "jpeg"
                               then finish (jpeg_Encode e remapped)
                               else Returns (2, Some unsupported_output)
                      end
                  end
              end
          end
      end
  end.

(** * Properties *)

(** ** Ranges *)

Lemma In_zrange (n : nat) : forall lo z,
  In z (zrange lo n) <-> lo <= z < lo + Z.of_nat n.
Proof.
  induction n as [|k IH]; intros lo z; cbn [zrange In].
  - lia.
  - rewrite IH. lia.
Qed.

Lemma length_zrange (n : nat) : forall lo, List.length (zrange lo n) = n.
Proof. induction n as [|k IH]; intros lo; cbn; [reflexivity | now rewrite IH]. Qed.

(** ** Primitive integers: [of_Z] commutes with the ring operations *)

Lemma of_Z_add (a b : Z) : Uint63.of_Z (a + b) = (Uint63.of_Z a + Uint63.of_Z b)%uint63.
Proof.
  apply Uint63.to_Z_inj.
  rewrite Uint63.add_spec, !Uint63.of_Z_spec. now rewrite <- Z.add_mod by discriminate.
Qed.

Lemma of_Z_mul (a b : Z) : Uint63.of_Z (a * b) = (Uint63.of_Z a * Uint63.of_Z b)%uint63.
Proof.
  apply Uint63.to_Z_inj.
  rewrite Uint63.mul_spec, !Uint63.of_Z_spec. now rewrite <- Z.mul_mod by discriminate.
Qed.

Lemma of_Z_sub (a b : Z) : Uint63.of_Z (a - b) = (Uint63.of_Z a - Uint63.of_Z b)%uint63.
Proof.
  apply Uint63.to_Z_inj.
  rewrite Uint63.sub_spec, !Uint63.of_Z_spec. now rewrite <- Zminus_mod.
Qed.

Lemma In_ibytes (z : Z) : 0 <= z < 256 -> In (Uint63.of_Z z) ibytes.
Proof. intros H. apply in_map, In_zrange. cbn. lia. Qed.

(** ** Binary64: the order [<?] *)

Lemma SFltb_trans (x y z : spec_float) :
  SFltb x y = true -> SFltb y z = true -> SFltb x z = true.
Proof.
  unfold SFltb.
  destruct x as [sx|sx| |sx mx ex], y as [sy|sy| |sy my ey], z as [sz|sz| |sz mz ez];
    cbn [SFcompare];
    repeat match goal with s : bool |- _ => destruct s end;
    try discriminate; try reflexivity;
    change (Pos.compare_cont Eq mx my) with (Pos.compare mx my);
    change (Pos.compare_cont Eq my mz) with (Pos.compare my mz);
    change (Pos.compare_cont Eq mx mz) with (Pos.compare mx mz);
    destruct (Z.compare_spec ex ey), (Z.compare_spec ey ez), (Z.compare_spec ex ez);
    try lia; try discriminate; try reflexivity;
    destruct (Pos.compare_spec mx my), (Pos.compare_spec my mz), (Pos.compare_spec mx mz);
    cbn [CompOpp]; try discriminate; try reflexivity; lia.
Qed.

Lemma SFltb_irrefl (x : spec_float) : SFltb x x = false.
Proof.
  unfold SFltb.
  destruct x as [s|s| |s m e]; cbn [SFcompare]; try destruct s; try reflexivity;
    rewrite Z.compare_refl; fold (Pos.compare m m); now rewrite Pos.compare_refl.
Qed.

Lemma ltb_trans (x y z : float) :
  (x <? y)%float = true -> (y <? z)%float = true -> (x <? z)%float = true.
Proof. rewrite !FloatAxioms.ltb_spec. apply SFltb_trans. Qed.

Lemma ltb_irrefl (x : float) : (x <? x)%float = false.
Proof. rewrite FloatAxioms.ltb_spec. apply SFltb_irrefl. Qed.

Lemma ltb_asym (x y : float) : (x <? y)%float = true -> (y <? x)%float = false.
Proof.
  intros H. destruct (y <? x)%float eqn:E; [|reflexivity].
  pose proof (ltb_trans _ _ _ H E) as C. now rewrite ltb_irrefl in C.
Qed.

(** ** Binary64: the arithmetic of [distance] is exact *)

Lemma red_term_check : square_term_exact 2%float 2%uint63 = true.
Proof. vm_compute. reflexivity. Qed.

Lemma green_term_check : square_term_exact 3%float 3%uint63 = true.
Proof. vm_compute. reflexivity. Qed.

Lemma blue_term_check : square_term_exact 1%float 1%uint63 = true.
Proof. vm_compute. reflexivity. Qed.

Lemma red_green_check :
  sum_exact (weighted_squares 2) (weighted_squares 3) = true.
Proof. vm_compute. reflexivity. Qed.

Lemma red_green_blue_check :
  sum_exact (pair_sums (weighted_squares 2) (weighted_squares 3))
            (weighted_squares 1) = true.
Proof. vm_compute. reflexivity. Qed.

Lemma sqrt_increasing_check : sqrt_increasing = true.
Proof. vm_compute. reflexivity. Qed.

Lemma square_term_exact_spec (W : float) (w : Z) :
  square_term_exact W (Uint63.of_Z w) = true ->
  forall p c, 0 <= p < 256 -> 0 <= c < 256 ->
  (W * (float64 p - float64 c) * (float64 p - float64 c))%float
  = float64 (w * ((p - c) * (p - c))).
Proof.
  intros Hchk p c Hp Hc. unfold square_term_exact in Hchk.
  rewrite forallb_forall in Hchk.
  specialize (Hchk _ (In_ibytes p Hp)). rewrite forallb_forall in Hchk.
  specialize (Hchk _ (In_ibytes c Hc)).
  apply FloatAxioms.Leibniz.eqb_spec in Hchk.
  unfold float64. now rewrite !of_Z_mul, of_Z_sub.
Qed.

Lemma sum_exact_spec (xs ys : list int) :
  sum_exact xs ys = true ->
  forall s t, In (Uint63.of_Z s) xs -> In (Uint63.of_Z t) ys ->
  (float64 s + float64 t)%float = float64 (s + t).
Proof.
  intros Hchk s t Hs Ht. unfold sum_exact in Hchk.
  rewrite forallb_forall in Hchk. specialize (Hchk _ Hs).
  rewrite forallb_forall in Hchk. specialize (Hchk _ Ht).
  apply FloatAxioms.Leibniz.eqb_spec in Hchk.
  unfold float64. now rewrite of_Z_add.
Qed.

Lemma In_weighted_squares (w d : Z) :
  -256 < d < 256 ->
  In (Uint63.of_Z (w * (d * d))) (weighted_squares (Uint63.of_Z w)).
Proof.
  intros Hd. unfold weighted_squares.
  rewrite <- (Z.abs_square d).
  rewrite !of_Z_mul.
  apply (in_map (fun d => (Uint63.of_Z w * (d * d))%uint63)), In_ibytes. lia.
Qed.

Lemma In_pair_sums (xs ys : list int) (a b : Z) :
  In (Uint63.of_Z a) xs -> In (Uint63.of_Z b) ys ->
  In (Uint63.of_Z (a + b)) (pair_sums xs ys).
Proof.
  intros Ha Hb. unfold pair_sums. apply in_flat_map.
  exists (Uint63.of_Z a). split; [assumption|].
  rewrite of_Z_add. now apply (in_map (fun b => (Uint63.of_Z a + b)%uint63)).
Qed.

(** A colour within the contract of [RGBA()] has byte channels after the
    shift by eight. *)
Lemma shiftr8_byte (v : Z) : color.in16 v = true -> 0 <= Z.shiftr v 8 < 256.
Proof.
  unfold color.in16. rewrite andb_true_iff, Z.leb_le, Z.leb_le. intros [H0 H1].
  rewrite Z.shiftr_div_pow2 by lia. change (2 ^ 8) with 256.
  split; [apply Z.div_pos; lia | apply Z.div_lt_upper_bound; lia].
Qed.

Lemma valid_channels (c : color.Color) :
  color.valid c = true ->
  0 <= Z.shiftr (color.r16 c) 8 < 256 /\
  0 <= Z.shiftr (color.g16 c) 8 < 256 /\
  0 <= Z.shiftr (color.b16 c) 8 < 256.
Proof.
  unfold color.valid. rewrite !andb_true_iff. intros [[[Hr Hg] Hb] _].
  auto using shiftr8_byte.
Qed.

(** What [distance] computes: the correctly rounded square root of the
    weighted sum of squares, the sum itself being exact. *)
Lemma distance_sqrt (c q : color.Color) :
  color.valid c = true -> color.valid q = true ->
  distance c q = math.Sqrt (float64 (spec_distance c q)).
Proof.
  intros Hc Hq.
  destruct (valid_channels c Hc) as (Hcr & Hcg & Hcb).
  destruct (valid_channels q Hq) as (Hqr & Hqg & Hqb).
  unfold distance, spec_distance. cbv zeta. f_equal.
  rewrite (square_term_exact_spec 2%float 2 red_term_check) by assumption.
  rewrite (square_term_exact_spec 3%float 3 green_term_check) by assumption.
  rewrite (square_term_exact_spec 1%float 1 blue_term_check) by assumption.
  rewrite (sum_exact_spec _ _ red_green_check)
    by (apply (In_weighted_squares 2) || apply (In_weighted_squares 3); lia).
  rewrite (sum_exact_spec _ _ red_green_blue_check).
  - f_equal. ring.
  - apply In_pair_sums;
      [apply (In_weighted_squares 2) | apply (In_weighted_squares 3)]; lia.
  - apply (In_weighted_squares 1); lia.
Qed.

Lemma square_range (d : Z) : -255 <= d <= 255 -> 0 <= d * d <= 65025.
Proof. intros H. nia. Qed.

Lemma spec_distance_range (c q : color.Color) :
  color.valid c = true -> color.valid q = true ->
  0 <= spec_distance c q <= max_sum.
Proof.
  intros Hc Hq.
  destruct (valid_channels c Hc) as (Hcr & Hcg & Hcb).
  destruct (valid_channels q Hq) as (Hqr & Hqg & Hqb).
  unfold spec_distance, max_sum. cbv zeta.
  pose proof (square_range (Z.shiftr (color.r16 c) 8 - Z.shiftr (color.r16 q) 8)).
  pose proof (square_range (Z.shiftr (color.g16 c) 8 - Z.shiftr (color.g16 q) 8)).
  pose proof (square_range (Z.shiftr (color.b16 c) 8 - Z.shiftr (color.b16 q) 8)).
  lia.
Qed.

(** ** Binary64: the square root keeps the order of the sums *)

Lemma sqrt_lt_succ (n : Z) :
  0 <= n < max_sum ->
  (math.Sqrt (float64 n) <? math.Sqrt (float64 (n + 1)))%float = true.
Proof.
  intros Hn. pose proof sqrt_increasing_check as Hchk.
  unfold sqrt_increasing in Hchk. rewrite forallb_forall in Hchk.
  unfold float64. rewrite of_Z_add. apply Hchk.
  apply in_map, In_zrange. rewrite Z2Nat.id by (unfold max_sum; lia). lia.
Qed.

Lemma sqrt_lt_steps (k : nat) : forall a,
  0 <= a -> a + Z.of_nat (S k) <= max_sum ->
  (math.Sqrt (float64 a) <? math.Sqrt (float64 (a + Z.of_nat (S k))))%float = true.
Proof.
  induction k as [|k IH]; intros a Ha Hb.
  - apply sqrt_lt_succ. lia.
  - apply ltb_trans with (math.Sqrt (float64 (a + Z.of_nat (S k)))).
    + apply IH; lia.
    + replace (a + Z.of_nat (S (S k))) with (a + Z.of_nat (S k) + 1) by lia.
      apply sqrt_lt_succ. lia.
Qed.

Lemma sqrt_lt (a b : Z) :
  0 <= a -> a < b -> b <= max_sum ->
  (math.Sqrt (float64 a) <? math.Sqrt (float64 b))%float = true.
Proof.
  intros Ha Hab Hb.
  replace b with (a + Z.of_nat (S (Z.to_nat (b - a - 1)))) by lia.
  apply sqrt_lt_steps; lia.
Qed.

Lemma sqrt_ltb (a b : Z) :
  0 <= a <= max_sum -> 0 <= b <= max_sum ->
  (math.Sqrt (float64 a) <? math.Sqrt (float64 b))%float = (a <? b).
Proof.
  intros Ha Hb. destruct (Z.ltb_spec a b) as [L|L].
  - apply sqrt_lt; lia.
  - destruct (Z.eq_dec a b) as [->|N].
    + apply ltb_irrefl.
    + apply ltb_asym, sqrt_lt; lia.
Qed.

Lemma sqrt_below_max (a : Z) :
  0 <= a <= max_sum ->
  (math.Sqrt (float64 a) <? math.MaxFloat64)%float = true.
Proof.
  intros Ha.
  assert (Htop : (math.Sqrt (float64 max_sum) <? math.MaxFloat64)%float = true)
    by (vm_compute; reflexivity).
  destruct (Z.eq_dec a max_sum) as [->|N]; [assumption|].
  apply ltb_trans with (math.Sqrt (float64 max_sum)); [|assumption].
  apply sqrt_lt; lia.
Qed.

(** The comparisons [find_closest] makes, read on the integer sums. *)
Lemma distance_ltb (c q q' : color.Color) :
  color.valid c = true -> color.valid q = true -> color.valid q' = true ->
  (distance c q <? distance c q')%float = (spec_distance c q <? spec_distance c q').
Proof.
  intros Hc Hq Hq'. rewrite !distance_sqrt by assumption.
  apply sqrt_ltb; apply spec_distance_range; assumption.
Qed.

Lemma distance_below_max (c q : color.Color) :
  color.valid c = true -> color.valid q = true ->
  (distance c q <? math.MaxFloat64)%float = true.
Proof.
  intros Hc Hq. rewrite distance_sqrt by assumption.
  apply sqrt_below_max, spec_distance_range; assumption.
Qed.

(** ** [find_closest]: the scan *)

Lemma find_closest_step_take (c q : color.Color) (m : float) (cl : color.RGBA) :
  (distance c q <? m)%float = true ->
  find_closest_step c (m, cl) q = (distance c q, opaque_copy q).
Proof. intros H. unfold find_closest_step. now rewrite H. Qed.

Lemma find_closest_step_keep (c q : color.Color) (m : float) (cl : color.RGBA) :
  (distance c q <? m)%float = false ->
  find_closest_step c (m, cl) q = (m, cl).
Proof. intros H. unfold find_closest_step. now rewrite H. Qed.

(** Once an entry is held, the scan always holds some entry met so far. *)
Lemma scan_holds_entry (c : color.Color) (p : color.Palette) : forall q0,
  exists q, In q (q0 :: p) /\
    fold_left (find_closest_step c) p (distance c q0, opaque_copy q0)
    = (distance c q, opaque_copy q).
Proof.
  induction p as [|q1 p IH]; intros q0; cbn [fold_left].
  - exists q0. split; [now left | reflexivity].
  - destruct (distance c q1 <? distance c q0)%float eqn:E.
    + rewrite find_closest_step_take by assumption.
      destruct (IH q1) as (q & Hin & Hq). exists q. split; [now right | assumption].
    + rewrite find_closest_step_keep by assumption.
      destruct (IH q0) as (q & Hin & Hq). exists q. split; [|assumption].
      destruct Hin as [<-|Hin]; [now left | now right; right].
Qed.

(** On a palette that is not empty the result is the copy of an entry. *)
Lemma find_closest_entry (c : color.Color) (p : color.Palette) :
  color.valid c = true -> forallb color.valid p = true -> p <> [] ->
  exists q, In q p /\ find_closest c p = opaque_copy q.
Proof.
  intros Hc Hp Hne. destruct p as [|q0 p]; [congruence|].
  cbn [forallb] in Hp. apply andb_true_iff in Hp as [Hq0 _].
  unfold find_closest. cbn [fold_left].
  rewrite find_closest_step_take by now apply distance_below_max.
  destruct (scan_holds_entry c p q0) as (q & Hin & Hq).
  exists q. split; [assumption | now rewrite Hq].
Qed.

(** Entries that are no closer than the one held leave the scan unchanged. *)
Lemma scan_keeps_best (c q : color.Color) (post : color.Palette) :
  color.valid c = true -> color.valid q = true ->
  forallb color.valid post = true ->
  (forall q', In q' post -> spec_distance c q <= spec_distance c q') ->
  fold_left (find_closest_step c) post (distance c q, opaque_copy q)
  = (distance c q, opaque_copy q).
Proof.
  intros Hc Hq. induction post as [|q1 post IH]; intros Hv Hmin; cbn [fold_left].
  - reflexivity.
  - cbn [forallb] in Hv. apply andb_true_iff in Hv as [Hq1 Hv].
    rewrite find_closest_step_keep.
    + apply IH; [assumption | intros q' Hin; apply Hmin; now right].
    + rewrite distance_ltb by assumption. apply Z.ltb_ge, Hmin. now left.
Qed.

(** Entries that are strictly farther than [q] never beat [q]. *)
Lemma scan_stays_above (c q : color.Color) (pre : color.Palette) :
  color.valid c = true -> color.valid q = true ->
  forallb color.valid pre = true ->
  (forall q', In q' pre -> spec_distance c q < spec_distance c q') ->
  forall st, (distance c q <? fst st)%float = true ->
  (distance c q <? fst (fold_left (find_closest_step c) pre st))%float = true.
Proof.
  intros Hc Hq. induction pre as [|q1 pre IH]; intros Hv Hfar st Hst; cbn [fold_left].
  - assumption.
  - cbn [forallb] in Hv. apply andb_true_iff in Hv as [Hq1 Hv].
    apply IH; [assumption | intros q' Hin; apply Hfar; now right |].
    destruct st as [m cl]. unfold find_closest_step.
    destruct (distance c q1 <? m)%float; cbn [fst]; [|assumption].
    rewrite distance_ltb by assumption. apply Z.ltb_lt, Hfar. now left.
Qed.

Lemma find_closest_first_minimum (c q : color.Color) (pre post : color.Palette) :
  color.valid c = true -> forallb color.valid (pre ++ q :: post) = true ->
  (forall q', In q' pre -> spec_distance c q < spec_distance c q') ->
  (forall q', In q' post -> spec_distance c q <= spec_distance c q') ->
  find_closest c (pre ++ q :: post) = opaque_copy q.
Proof.
  intros Hc Hv Hpre Hpost.
  rewrite forallb_app in Hv. apply andb_true_iff in Hv as [Hvpre Hv].
  cbn [forallb] in Hv. apply andb_true_iff in Hv as [Hq Hvpost].
  unfold find_closest. rewrite fold_left_app. cbn [fold_left].
  pose proof (scan_stays_above c q pre Hc Hq Hvpre Hpre
                (math.MaxFloat64, color.mkRGBA 0 0 0 0)
                (distance_below_max c q Hc Hq)) as Habove.
  destruct (fold_left (find_closest_step c) pre _) as [m cl]. cbn [fst] in Habove.
  rewrite find_closest_step_take by assumption.
  now rewrite scan_keeps_best.
Qed.

(** ** Bytes and the sixteen-bit view of a colour *)

Lemma uint8_byte (x : Z) : is_byte (uint8 x) = true.
Proof.
  unfold is_byte, uint8. change 255 with (Z.ones 8). rewrite Z.land_ones by lia.
  pose proof (Z.mod_pos_bound x (2 ^ 8) eq_refl) as H. change (2 ^ 8) with 256 in *.
  apply andb_true_iff. split; [apply Z.leb_le | apply Z.ltb_lt]; lia.
Qed.

Lemma is_byte_range (v : Z) : is_byte v = true <-> 0 <= v < 256.
Proof. unfold is_byte. rewrite andb_true_iff, Z.leb_le, Z.ltb_lt. reflexivity. Qed.

Lemma widen_round_trip (v : Z) :
  is_byte v = true -> uint8 (Z.shiftr (color.widen v) 8) = v.
Proof.
  intros H. apply is_byte_range in H.
  assert (Hall : forallb (fun v => uint8 (Z.shiftr (color.widen v) 8) =? v)
                         (zrange 0 256) = true) by (vm_compute; reflexivity).
  rewrite forallb_forall in Hall. apply Z.eqb_eq, Hall, In_zrange. cbn. lia.
Qed.

Lemma widen_in16 (v : Z) : is_byte v = true -> color.in16 (color.widen v) = true.
Proof.
  intros H. apply is_byte_range in H.
  assert (Hall : forallb (fun v => color.in16 (color.widen v)) (zrange 0 256) = true)
    by (vm_compute; reflexivity).
  rewrite forallb_forall in Hall. apply Hall, In_zrange. cbn. lia.
Qed.

Lemma rgbaModel_of_RGBA (c : color.RGBA) :
  bytes_RGBA c = true -> color.rgbaModel (color.of_RGBA c) = c.
Proof.
  unfold bytes_RGBA. rewrite !andb_true_iff. intros [[[Hr Hg] Hb] Ha].
  destruct c as [r g b a]. unfold color.rgbaModel, color.of_RGBA.
  cbn [color.r16 color.g16 color.b16 color.a16 color.R color.G color.B color.A] in *.
  now rewrite !widen_round_trip.
Qed.

Lemma opaque_copy_bytes (q : color.Color) : bytes_RGBA (opaque_copy q) = true.
Proof.
  unfold bytes_RGBA, opaque_copy. cbn [color.R color.G color.B color.A].
  now rewrite !uint8_byte.
Qed.

Lemma Color_eqb_eq (c d : color.Color) : color.Color_eqb c d = true -> c = d.
Proof.
  unfold color.Color_eqb. rewrite !andb_true_iff, !Z.eqb_eq.
  destruct c, d. cbn. intros [[[-> ->] ->] ->]. reflexivity.
Qed.

Lemma opaque8_copy (q : color.Color) :
  color.opaque8 q = true -> color.of_RGBA (opaque_copy q) = q.
Proof. intros H. symmetry. now apply Color_eqb_eq. Qed.

Lemma opaque8_valid (q : color.Color) : color.opaque8 q = true -> color.valid q = true.
Proof.
  intros H. rewrite <- (opaque8_copy q H).
  unfold color.valid, color.of_RGBA, opaque_copy.
  cbn [color.r16 color.g16 color.b16 color.a16 color.R color.G color.B color.A].
  now rewrite !widen_in16 by (apply uint8_byte || reflexivity).
Qed.

Lemma forallb_opaque8_valid (p : color.Palette) :
  forallb color.opaque8 p = true -> forallb color.valid p = true.
Proof.
  rewrite !forallb_forall. intros H q Hin. now apply opaque8_valid, H.
Qed.

Lemma scan_bytes (c : color.Color) (p : color.Palette) : forall st,
  bytes_RGBA (snd st) = true ->
  bytes_RGBA (snd (fold_left (find_closest_step c) p st)) = true.
Proof.
  induction p as [|q p IH]; intros [m cl] H; cbn [fold_left]; [assumption|].
  apply IH. unfold find_closest_step.
  destruct (distance c q <? m)%float; cbn [snd]; [apply opaque_copy_bytes | assumption].
Qed.

Lemma find_closest_bytes (c : color.Color) (p : color.Palette) :
  bytes_RGBA (find_closest c p) = true.
Proof. unfold find_closest. now apply scan_bytes. Qed.

(** ** Rectangles and their points *)

Lemma In_columns (b : image.Rectangle) (x : Z) :
  In x (columns b) <-> image.X (image.Min b) <= x < image.X (image.Max b).
Proof. unfold columns, image.Dx. rewrite In_zrange. lia. Qed.

Lemma In_rows (b : image.Rectangle) (y : Z) :
  In y (rows b) <-> image.Y (image.Min b) <= y < image.Y (image.Max b).
Proof. unfold rows, image.Dy. rewrite In_zrange. lia. Qed.

Lemma Point_In_spec (b : image.Rectangle) (x y : Z) :
  image.Point_In (image.mkPoint x y) b = true <-> In x (columns b) /\ In y (rows b).
Proof.
  rewrite In_columns, In_rows. unfold image.Point_In. cbn.
  rewrite !andb_true_iff, !Z.leb_le, !Z.ltb_lt. lia.
Qed.

Lemma In_points (b : image.Rectangle) (pt : image.Point) :
  In pt (points b) <-> image.Point_In pt b = true.
Proof.
  destruct pt as [x y]. rewrite Point_In_spec. unfold points. rewrite in_flat_map.
  split.
  - intros (y' & Hy & Hin). apply in_map_iff in Hin as (x' & Heq & Hx).
    injection Heq as -> ->. now split.
  - intros [Hx Hy]. exists y. split; [assumption|].
    now apply (in_map (fun x => image.mkPoint x y)).
Qed.

(** ** [has_palette]: the scan of the image *)

Lemma has_palette_row_spec (img : image.Image) (p : color.Palette) (y : Z)
    (xs : list Z) :
  has_palette_row img p y xs
  = (forallb (fun pt => negb (mismatch_at img p pt))
             (map (fun x => image.mkPoint x y) xs),
     scanned (mismatch_at img p) (map (fun x => image.mkPoint x y) xs)).
Proof.
  induction xs as [|x xs IH]; cbn [has_palette_row map forallb scanned].
  - reflexivity.
  - unfold mismatch_at at 1 3. cbn [image.X image.Y].
    destruct (mismatch img p x y); cbn [negb andb]; [reflexivity|].
    now rewrite IH.
Qed.

Lemma scanned_app (bad : image.Point -> bool) (l1 l2 : list image.Point) :
  scanned bad (l1 ++ l2)
  = if forallb (fun pt => negb (bad pt)) l1 then l1 ++ scanned bad l2
    else scanned bad l1.
Proof.
  induction l1 as [|pt l1 IH]; cbn [app scanned forallb]; [reflexivity|].
  destruct (bad pt); cbn [negb andb]; [reflexivity|].
  rewrite IH. now destruct (forallb _ l1).
Qed.

Lemma scanned_all (bad : image.Point -> bool) (pts : list image.Point) :
  forallb (fun pt => negb (bad pt)) pts = true -> scanned bad pts = pts.
Proof.
  induction pts as [|pt0 pts IH]; cbn [forallb scanned]; [reflexivity|].
  destruct (bad pt0); cbn [negb andb]; [discriminate|]. intros H. now rewrite IH.
Qed.

Lemma has_palette_rows_spec (img : image.Image) (p : color.Palette)
    (ys xs : list Z) :
  has_palette_rows img p ys xs
  = (forallb (fun pt => negb (mismatch_at img p pt))
             (flat_map (fun y => map (fun x => image.mkPoint x y) xs) ys),
     scanned (mismatch_at img p)
             (flat_map (fun y => map (fun x => image.mkPoint x y) xs) ys)).
Proof.
  induction ys as [|y ys IH]; cbn [has_palette_rows flat_map]; [reflexivity|].
  rewrite has_palette_row_spec, forallb_app, scanned_app.
  destruct (forallb _ (map _ xs)) eqn:E; cbn [andb]; [|reflexivity].
  now rewrite IH, (scanned_all _ _ E).
Qed.

Lemma has_palette_visits_spec (img : image.Image) (p : color.Palette) :
  has_palette_visits img p
  = (forallb (fun pt => negb (mismatch_at img p pt)) (points (image.Bounds img)),
     scanned (mismatch_at img p) (points (image.Bounds img))).
Proof. unfold has_palette_visits. apply has_palette_rows_spec. Qed.

(** The test of the loop body fails exactly when the pixel is its own
    nearest palette colour on the three channels. *)
Lemma mismatch_false (img : image.Image) (p : color.Palette) (x y : Z) :
  mismatch img p x y = false <->
  color.rgb8 (image.At img x y) = color.rgb_of (find_closest (image.At img x y) p).
Proof.
  unfold mismatch, color.rgb8, color.rgb_of. cbv zeta.
  rewrite !orb_false_iff, !negb_false_iff, !Z.eqb_eq. split.
  - intros [[-> ->] ->]. reflexivity.
  - intros H. injection H as -> -> ->. auto.
Qed.

Lemma has_palette_true (img : image.Image) (p : color.Palette) :
  has_palette img p = true <->
  forall x y, image.Point_In (image.mkPoint x y) (image.Bounds img) = true ->
    color.rgb8 (image.At img x y) = color.rgb_of (find_closest (image.At img x y) p).
Proof.
  unfold has_palette. rewrite has_palette_visits_spec. cbn [fst].
  rewrite forallb_forall. split.
  - intros H x y Hin. apply mismatch_false.
    apply In_points in Hin. specialize (H _ Hin). now apply negb_true_iff in H.
  - intros H [x y] Hin. apply negb_true_iff, mismatch_false, H. now apply In_points.
Qed.

(** A scan that meets a bad point stops there, and one that meets none
    reads every point. *)
Lemma scanned_stops (bad : image.Point -> bool) (pts : list image.Point) :
  forallb (fun pt => negb (bad pt)) pts = false ->
  exists before pt after,
    pts = before ++ pt :: after /\
    (forall q, In q before -> bad q = false) /\
    bad pt = true /\
    scanned bad pts = before ++ [pt].
Proof.
  induction pts as [|pt0 pts IH]; cbn [forallb scanned]; [discriminate|].
  destruct (bad pt0) eqn:E; cbn [negb andb].
  - intros _. exists [], pt0, pts. repeat split; [intros q []| assumption].
  - intros H. destruct (IH H) as (before & pt & after & -> & Hb & Hpt & Hs).
    exists (pt0 :: before), pt, after. repeat split; [|assumption|now rewrite Hs].
    intros q [<-|Hin]; [assumption | now apply Hb].
Qed.


(** ** [remap]: the filled image *)

Lemma RGBASet_Rect (d : image.RGBA) (x y : Z) (c : color.Color) :
  image.Rect (image.RGBASet d x y c) = image.Rect d.
Proof. unfold image.RGBASet. now destruct (image.Point_In _ _). Qed.

Lemma RGBASet_Pix (d : image.RGBA) (x y : Z) (c : color.Color) (x' y' : Z) :
  image.Pix (image.RGBASet d x y c) x' y'
  = if image.Point_In (image.mkPoint x y) (image.Rect d) && ((x' =? x) && (y' =? y))
    then color.rgbaModel c else image.Pix d x' y'.
Proof. unfold image.RGBASet. now destruct (image.Point_In _ _). Qed.

Lemma remap_row_Rect (img : image.Image) (p : color.Palette) (y : Z) (xs : list Z) :
  forall d, image.Rect (remap_row img p xs d y) = image.Rect d.
Proof.
  unfold remap_row. induction xs as [|x xs IH]; intros d; cbn [fold_left];
    [reflexivity|]. now rewrite IH, RGBASet_Rect.
Qed.

Lemma remap_row_Pix (img : image.Image) (p : color.Palette) (y : Z) (xs : list Z) :
  forall d x' y',
  image.Pix (remap_row img p xs d y) x' y'
  = if (y' =? y) && existsb (Z.eqb x') xs
       && image.Point_In (image.mkPoint x' y) (image.Rect d)
    then find_closest (image.At img x' y) p
    else image.Pix d x' y'.
Proof.
  unfold remap_row. induction xs as [|x xs IH]; intros d x' y'; cbn [fold_left existsb].
  - now rewrite andb_false_r.
  - rewrite IH, RGBASet_Rect, RGBASet_Pix.
    rewrite rgbaModel_of_RGBA by apply find_closest_bytes.
    destruct (Z.eqb_spec y' y) as [->|Ny]; destruct (Z.eqb_spec x' x) as [->|Nx];
      destruct (existsb _ xs);
      destruct (image.Point_In (image.mkPoint x y) (image.Rect d));
      cbn [andb orb]; try reflexivity;
      destruct (image.Point_In (image.mkPoint x' y) (image.Rect d)); reflexivity.
Qed.

Lemma remap_rows_Rect (img : image.Image) (p : color.Palette) (xs ys : list Z) :
  forall d, image.Rect (fold_left (remap_row img p xs) ys d) = image.Rect d.
Proof.
  induction ys as [|y ys IH]; intros d; cbn [fold_left]; [reflexivity|].
  now rewrite IH, remap_row_Rect.
Qed.

Lemma remap_rows_Pix (img : image.Image) (p : color.Palette) (xs ys : list Z) :
  forall d x' y',
  image.Pix (fold_left (remap_row img p xs) ys d) x' y'
  = if existsb (Z.eqb y') ys && existsb (Z.eqb x') xs
       && image.Point_In (image.mkPoint x' y') (image.Rect d)
    then find_closest (image.At img x' y') p
    else image.Pix d x' y'.
Proof.
  induction ys as [|y ys IH]; intros d x' y'; cbn [fold_left existsb];
    [reflexivity|].
  rewrite IH, remap_row_Rect, remap_row_Pix.
  destruct (Z.eqb_spec y' y) as [->|Ny]; destruct (existsb _ ys);
    destruct (existsb _ xs);
    destruct (image.Point_In (image.mkPoint x' y) (image.Rect d));
    cbn [andb orb]; try reflexivity;
    destruct (image.Point_In (image.mkPoint x' y') (image.Rect d)); reflexivity.
Qed.

Lemma existsb_eqb (x : Z) (l : list Z) : In x l -> existsb (Z.eqb x) l = true.
Proof. intros H. apply existsb_exists. exists x. split; [assumption | apply Z.eqb_refl]. Qed.

(** The image [remap] builds: same rectangle, and at every point of it the
    nearest palette colour of the pixel read there. *)
Lemma remap_image_spec (img : image.Image) (p : color.Palette) :
  image.fits (image.Bounds img) = true ->
  exists remapped,
    remap_image img p = Some remapped /\
    image.Rect remapped = image.Bounds img /\
    forall x y, image.Point_In (image.mkPoint x y) (image.Bounds img) = true ->
      image.RGBAAt remapped x y = find_closest (image.At img x y) p.
Proof.
  intros Hfits. unfold remap_image, image.NewRGBA. rewrite Hfits.
  eexists. split; [reflexivity|]. split.
  - now rewrite remap_rows_Rect.
  - intros x y Hin. unfold image.RGBAAt.
    rewrite remap_rows_Rect. cbn [image.Rect]. rewrite Hin.
    rewrite remap_rows_Pix. cbn [image.Rect]. rewrite Hin.
    apply Point_In_spec in Hin as [Hx Hy].
    now rewrite (existsb_eqb _ _ Hx), (existsb_eqb _ _ Hy).
Qed.

(** ** [load_palette] *)

Lemma byte_at_byte (data : list byte) (i : nat) : is_byte (byte_at data i) = true.
Proof.
  unfold byte_at. apply is_byte_range.
  pose proof (Byte.to_N_bounded (nth i data x00)). lia.
Qed.

Lemma opaque8_of_bytes (r g b : Z) :
  is_byte r = true -> is_byte g = true -> is_byte b = true ->
  color.opaque8 (color.of_RGBA (color.mkRGBA r g b 255)) = true.
Proof.
  intros Hr Hg Hb. unfold color.opaque8, color.of_RGBA.
  cbn [color.r16 color.g16 color.b16 color.a16 color.R color.G color.B color.A].
  rewrite !widen_round_trip by assumption.
  unfold color.Color_eqb.
  cbn [color.r16 color.g16 color.b16 color.a16].
  now rewrite !Z.eqb_refl.
Qed.

Lemma load_palette_short_read (pal : io.Reader) :
  (List.length pal < 192)%nat ->
  load_palette pal
  = ([], Some (match pal with [] => EOF | _ :: _ => ErrUnexpectedEOF end)).
Proof.
  intros H. unfold load_palette, io.ReadFull.
  change (PALETTE_SIZE * 3)%nat with 192%nat.
  apply Nat.leb_gt in H. rewrite H. now destruct pal.
Qed.

Lemma load_palette_full_read (pal : io.Reader) :
  (192 <= List.length pal)%nat ->
  exists p, load_palette pal = (p, None) /\
            List.length p = PALETTE_SIZE /\ forallb color.opaque8 p = true.
Proof.
  intros H. unfold load_palette, io.ReadFull.
  change (PALETTE_SIZE * 3)%nat with 192%nat.
  apply Nat.leb_le in H. rewrite H.
  eexists. split; [reflexivity|]. split.
  - now rewrite length_map, length_seq.
  - apply forallb_forall. intros q Hin. apply in_map_iff in Hin as (i & <- & _).
    apply opaque8_of_bytes; apply byte_at_byte.
Qed.

(** Whatever [load_palette] returns without an error has sixty-four
    entries, each an opaque byte colour. *)
Lemma load_palette_result (pal : io.Reader) (p : color.Palette) :
  load_palette pal = (p, None) ->
  List.length p = PALETTE_SIZE /\ forallb color.opaque8 p = true.
Proof.
  intros H. destruct (Nat.lt_ge_cases (List.length pal) 192) as [L|L].
  - rewrite load_palette_short_read in H by assumption. discriminate.
  - destruct (load_palette_full_read pal L) as (p' & Hp' & Hlen & Hop).
    rewrite Hp' in H. injection H as <-. now split.
Qed.

(** ** [identify]: candidates that do not verify *)

Lemma identify_custom_rejected (img : image.Image) (custom_pals : list os.File) :
  forallb (fun pal => rejects img (os.content pal)) custom_pals = true ->
  identify_custom img custom_pals = (None, []).
Proof.
  induction custom_pals as [|pal rest IH]; cbn [forallb identify_custom];
    [reflexivity|].
  intros H. apply andb_true_iff in H as [Hpal Hrest]. unfold rejects in Hpal.
  destruct (load_palette (os.content pal)) as [p [e|]]; [discriminate|].
  apply negb_true_iff in Hpal. rewrite Hpal. now apply IH.
Qed.

Lemma identify_builtin_rejected (env : Env) (img : image.Image)
    (entries : list fs.DirEntry) :
  forallb (fun entry => negb (is_candidate entry) || builtin_rejects env img entry)
          entries = true ->
  exists evs, identify_builtin env img entries = (None, evs).
Proof.
  induction entries as [|entry rest IH]; cbn [forallb identify_builtin].
  - intros _. now exists [].
  - intros H. apply andb_true_iff in H as [Hentry Hrest].
    destruct (IH Hrest) as (evs & Hevs).
    unfold is_candidate in Hentry. rewrite negb_involutive in Hentry.
    destruct (fs.IsDir entry || negb (filepath.Ext (fs.Name entry) =? ".pal")%string).
    + now exists evs.
    + cbn [orb] in Hentry. unfold builtin_rejects, rejects in Hentry.
      destruct (palettes_Open env _) as [file [e|]]; [discriminate|].
      destruct (load_palette file) as [p [e|]]; [discriminate|].
      apply negb_true_iff in Hentry. rewrite Hentry, Hevs. now eexists.
Qed.

(** In custom-only mode, with custom palettes that all decode and none of
    which verifies the image, [identify] returns status 0 and prints
    nothing. *)
Lemma identify_custom_only_no_match (env : Env) (img : image.Image)
    (custom_pals : list os.File) :
  custom_pals <> [] ->
  forallb (fun pal => rejects img (os.content pal)) custom_pals = true ->
  identify env img custom_pals true = ((0, None), []).
Proof.
  intros Hne H. unfold identify. rewrite identify_custom_rejected by assumption.
  destruct custom_pals; [congruence | reflexivity].
Qed.

(** A custom palette that fails to decode ends [identify] with status 1 and
    the error of the read, whatever follows it. *)
Lemma identify_custom_decode_error (env : Env) (img : image.Image)
    (pal : os.File) (rest : list os.File) (custom_only : bool) :
  (List.length (os.content pal) < 192)%nat ->
  exists e, identify env img (pal :: rest) custom_only = ((1, Some e), []).
Proof.
  intros H. unfold identify. cbn [identify_custom].
  rewrite load_palette_short_read by assumption. now eexists.
Qed.

(** ** [remap]: the output format *)

Lemma remap_reaches_switch (env : Env) (img : image.Image) (pal : io.Reader)
    (dst_path : string) :
  (192 <= List.length pal)%nat ->
  os_Create env dst_path = None ->
  image.fits (image.Bounds img) = true ->
  exists remapped,
    remap_image img (fst (load_palette pal)) = Some remapped /\
    remap env img pal dst_path
    = match slice_from_1 (filepath.Ext dst_path) with
      | None => Panics "slice bounds out of range [1:0]"
      | Some ext =>
          let finish (err : option error) :=
            match err with
            | Some e => Returns (1, Some e)
            | None => Returns (0, None)
            end in
          if String.eqb ext "png" then finish (png_Encode env remapped)
          else if String.eqb ext "jpg" || String.eqb ext "jpeg"
               then finish (jpeg_Encode env remapped)
               else Returns (2, Some unsupported_output)
      end.
Proof.
  intros Hpal Hcreate Hfits.
  destruct (load_palette_full_read pal Hpal) as (p & Hp & _).
  destruct (remap_image_spec img p Hfits) as (remapped & Hr & _).
  exists remapped. unfold remap. rewrite Hp. cbn [fst]. now rewrite Hcreate, Hr.
Qed.

(** A path whose last element has a dot and an extension other than
    [png], [jpg] and [jpeg] is refused with status 2. *)
Lemma remap_unsupported_extension (env : Env) (img : image.Image)
    (pal : io.Reader) (dst_path : string) (dot : ascii) (ext : string) :
  (192 <= List.length pal)%nat ->
  os_Create env dst_path = None ->
  image.fits (image.Bounds img) = true ->
  filepath.Ext dst_path = String dot ext ->
  ext <> "png" -> ext <> "jpg" -> ext <> "jpeg" ->
  remap env img pal dst_path = Returns (2, Some unsupported_output).
Proof.
  intros Hpal Hcreate Hfits Hext Hpng Hjpg Hjpeg.
  destruct (remap_reaches_switch env img pal dst_path Hpal Hcreate Hfits)
    as (remapped & _ & ->).
  rewrite Hext. cbn [slice_from_1].
  apply String.eqb_neq in Hpng, Hjpg, Hjpeg. now rewrite Hpng, Hjpg, Hjpeg.
Qed.

(** A path whose last element has no dot makes [remap] panic. *)
Lemma remap_no_extension (env : Env) (img : image.Image)
    (pal : io.Reader) (dst_path : string) :
  (192 <= List.length pal)%nat ->
  os_Create env dst_path = None ->
  image.fits (image.Bounds img) = true ->
  filepath.Ext dst_path = "" ->
  remap env img pal dst_path = Panics "slice bounds out of range [1:0]".
Proof.
  intros Hpal Hcreate Hfits Hext.
  destruct (remap_reaches_switch env img pal dst_path Hpal Hcreate Hfits)
    as (remapped & _ & ->).
  now rewrite Hext.
Qed.

Lemma load_palette_path_short_read (os_Open : string -> io.Reader * option error)
    (path : string) (file : io.Reader) :
  os_Open path = (file, None) -> (List.length file < 192)%nat ->
  exists e, load_palette_path os_Open path = ([], Some e).
Proof.
  intros Hopen Hshort. unfold load_palette_path. rewrite Hopen.
  rewrite load_palette_short_read by assumption. now eexists.
Qed.

(** ** The scenarios of the specification, run on the model *)

(** Scenario A: a single black pixel against the black-and-white palette. *)
Example scenario_black_pixel :
  find_closest (rgb 0 0 0) (fst (load_palette black_white_file))
  = color.mkRGBA 0 0 0 255 /\
  has_palette (one_pixel (rgb 0 0 0)) (fst (load_palette black_white_file)) = true.
Proof. split; vm_compute; reflexivity. Qed.

(** Scenario B: a single pixel (10, 10, 10) is nearer to black than to
    white, and is not black. *)
Example scenario_dark_grey_pixel :
  find_closest (rgb 10 10 10) (fst (load_palette black_white_file))
  = color.mkRGBA 0 0 0 255 /\
  has_palette (one_pixel (rgb 10 10 10)) (fst (load_palette black_white_file)) = false.
Proof. split; vm_compute; reflexivity. Qed.

(** Scenario C: a source of one hundred bytes. *)
Example scenario_short_source :
  load_palette (repeat x01 100) = ([], Some ErrUnexpectedEOF).
Proof. vm_compute. reflexivity. Qed.

(** The extensions [remap] accepts and refuses, on the one-pixel image. *)
Example remap_extensions :
  remap calm_env (one_pixel (rgb 10 10 10)) black_white_file "out.png"
  = Returns (0, None) /\
  remap calm_env (one_pixel (rgb 10 10 10)) black_white_file "dir/out.jpeg"
  = Returns (0, None) /\
  remap calm_env (one_pixel (rgb 10 10 10)) black_white_file "out.gif"
  = Returns (2, Some unsupported_output) /\
  remap calm_env (one_pixel (rgb 10 10 10)) black_white_file "out."
  = Returns (2, Some unsupported_output) /\
  remap calm_env (one_pixel (rgb 10 10 10)) black_white_file "a.b/out"
  = Panics "slice bounds out of range [1:0]".
Proof. repeat split; vm_compute; reflexivity. Qed.

(** * The claims *)

(** C1.  The claim: the metric is the weighted sum [2*dr^2 + 3*dg^2 + db^2]
    with no square root applied.  The code passes that sum to [math.Sqrt]
    (under a comment that says the root is left out): between black and
    the colour (0, 0, 2) the sum is 4 and [distance] is 2.  Lemma
    [distance_sqrt] gives the general form, the rounded root of the sum. *)
Theorem distance_applies_square_root :
  spec_distance (rgb 0 0 0) (rgb 0 0 2) = 4 /\
  distance (rgb 0 0 0) (rgb 0 0 2) = 2%float /\
  distance (rgb 0 0 0) (rgb 0 0 2) <> float64 (spec_distance (rgb 0 0 0) (rgb 0 0 2)).
Proof.
  split; [reflexivity|]. split; [vm_compute; reflexivity|].
  intros H. apply (f_equal (fun d => (d <? 3)%float)) in H.
  vm_compute in H. discriminate.
Qed.

(** C2.  [has_palette] returns [true] exactly when every pixel within the
    bounds equals its nearest palette colour on red, green and blue (alpha
    is not compared).  When it returns [true] it has read every point of
    the bounds; when it returns [false] it has read the points before the
    first mismatching one, that point, and nothing after it. *)
Theorem has_palette_fixed_point (img : image.Image) (p : color.Palette) :
  (has_palette img p = true <->
   forall x y, image.Point_In (image.mkPoint x y) (image.Bounds img) = true ->
     color.rgb8 (image.At img x y)
     = color.rgb_of (find_closest (image.At img x y) p)) /\
  (has_palette img p = true ->
   snd (has_palette_visits img p) = points (image.Bounds img)) /\
  (has_palette img p = false ->
   exists before pt after,
     points (image.Bounds img) = before ++ pt :: after /\
     (forall q, In q before -> mismatch_at img p q = false) /\
     mismatch_at img p pt = true /\
     snd (has_palette_visits img p) = before ++ [pt]).
Proof.
  split; [apply has_palette_true|].
  unfold has_palette. rewrite has_palette_visits_spec. cbn [fst snd]. split.
  - apply scanned_all.
  - apply scanned_stops.
Qed.

(** C3.  For an image whose bounds [image.NewRGBA] accepts, [remap] builds
    an image, and [has_palette] holds exactly when that image has the
    bounds of the input and the same red, green and blue at every point.
    (Colours are compared as the program sees them, on their three byte
    channels; the alpha of the output is always 255.) *)
Theorem has_palette_iff_remap_identical (img : image.Image) (p : color.Palette) :
  image.fits (image.Bounds img) = true ->
  exists remapped,
    remap_image img p = Some remapped /\
    image.Rect remapped = image.Bounds img /\
    (has_palette img p = true <->
     forall x y, image.Point_In (image.mkPoint x y) (image.Bounds img) = true ->
       color.rgb_of (image.RGBAAt remapped x y) = color.rgb8 (image.At img x y)).
Proof.
  intros Hfits.
  destruct (remap_image_spec img p Hfits) as (remapped & Hr & Hrect & Hat).
  exists remapped. split; [assumption|]. split; [assumption|].
  rewrite has_palette_true. split; intros H x y Hin.
  - rewrite Hat by assumption. symmetry. now apply H.
  - rewrite <- Hat by assumption. symmetry. now apply H.
Qed.

(** For an image of opaque byte colours and a palette that is not empty,
    the same holds with the full colour, alpha included. *)
Lemma has_palette_iff_remap_equal_opaque (img : image.Image) (p : color.Palette) :
  image.fits (image.Bounds img) = true ->
  (forall x y, color.opaque8 (image.At img x y) = true) ->
  p <> [] -> forallb color.valid p = true ->
  exists remapped,
    remap_image img p = Some remapped /\
    (has_palette img p = true <->
     forall x y, image.Point_In (image.mkPoint x y) (image.Bounds img) = true ->
       color.of_RGBA (image.RGBAAt remapped x y) = image.At img x y).
Proof.
  intros Hfits Himg Hne Hp.
  destruct (remap_image_spec img p Hfits) as (remapped & Hr & Hrect & Hat).
  exists remapped. split; [assumption|].
  rewrite has_palette_true. split; intros H x y Hin.
  - rewrite Hat by assumption.
    destruct (find_closest_entry (image.At img x y) p
                (opaque8_valid _ (Himg x y)) Hp Hne) as (q & _ & Hq).
    specialize (H x y Hin). rewrite Hq in *.
    rewrite <- (opaque8_copy _ (Himg x y)) at 1. f_equal.
    unfold color.rgb8, color.rgb_of, opaque_copy in *.
    cbn [color.R color.G color.B] in H. injection H as -> -> ->. reflexivity.
  - specialize (H x y Hin). rewrite Hat in H by assumption. rewrite <- H at 1.
    pose proof (find_closest_bytes (image.At img x y) p) as Hb.
    unfold bytes_RGBA in Hb. rewrite !andb_true_iff in Hb.
    destruct Hb as [[[Hbr Hbg] Hbb] _].
    unfold color.rgb8, color.rgb_of, color.of_RGBA.
    cbn [color.r16 color.g16 color.b16].
    now rewrite !widen_round_trip.
Qed.

Lemma has_palette_iff_remap_identical_witness :
  exists remapped,
    remap_image (one_pixel (rgb 0 0 0)) (fst (load_palette black_white_file))
    = Some remapped /\
    image.Rect remapped = image.Bounds (one_pixel (rgb 0 0 0)) /\
    (has_palette (one_pixel (rgb 0 0 0)) (fst (load_palette black_white_file)) = true <->
     forall x y,
       image.Point_In (image.mkPoint x y) (image.Bounds (one_pixel (rgb 0 0 0))) = true ->
       color.rgb_of (image.RGBAAt remapped x y)
       = color.rgb8 (image.At (one_pixel (rgb 0 0 0)) x y)).
Proof.
  apply (has_palette_iff_remap_identical (one_pixel (rgb 0 0 0))
           (fst (load_palette black_white_file))).
  reflexivity.
Defined.

(** C4.  The claim: an output path with an unsupported extension, or with
    none, makes [remap] return the unsupported-format error and never
    crash.  With a path that has no extension, [filepath.Ext] returns the
    empty string and the slice [[1:]] of it panics.  (Lemma
    [remap_unsupported_extension] covers the paths that do have a dot.) *)
Theorem remap_panics_without_extension :
  filepath.Ext "out" = "" /\
  remap calm_env (one_pixel (rgb 10 10 10)) black_white_file "out"
  = Panics "slice bounds out of range [1:0]".
Proof. split; vm_compute; reflexivity. Qed.

(** C5.  A source of fewer than 192 bytes makes [load_palette] return the
    nil palette and an error ([io.EOF] for an empty source,
    [io.ErrUnexpectedEOF] otherwise); and a palette returned without an
    error always has its sixty-four entries. *)
Theorem load_palette_short_source (pal : io.Reader) :
  (List.length pal < 192)%nat ->
  (exists e, load_palette pal = ([], Some e) /\ (e = EOF \/ e = ErrUnexpectedEOF)) /\
  (forall src p, load_palette src = (p, None) -> List.length p = 64%nat).
Proof.
  intros H. split.
  - rewrite load_palette_short_read by assumption.
    eexists. split; [reflexivity|]. destruct pal; [now left | now right].
  - intros src p Hp. now apply load_palette_result in Hp.
Qed.

Lemma load_palette_short_source_witness :
  (exists e, load_palette (repeat x01 100) = ([], Some e)
             /\ (e = EOF \/ e = ErrUnexpectedEOF)) /\
  (forall src p, load_palette src = (p, None) -> List.length p = 64%nat).
Proof.
  apply (load_palette_short_source (repeat x01 100)).
  apply Nat.ltb_lt. vm_compute. reflexivity.
Defined.

(** C6.  When the palette is [pre ++ q :: post], every entry of [pre] is
    strictly farther from [c] than [q] in the weighted metric, and no entry
    of [post] is nearer than [q], then [find_closest] returns the copy of
    [q]: of the entries at minimum distance, the one of lowest index wins. *)
Theorem find_closest_tie_break (c q : color.Color) (pre post : color.Palette) :
  color.valid c = true ->
  forallb color.valid (pre ++ q :: post) = true ->
  (forall q', In q' pre -> spec_distance c q < spec_distance c q') ->
  (forall q', In q' post -> spec_distance c q <= spec_distance c q') ->
  nth_error (pre ++ q :: post) (List.length pre) = Some q /\
  find_closest c (pre ++ q :: post) = opaque_copy q.
Proof.
  intros Hc Hv Hpre Hpost. split.
  - rewrite nth_error_app2 by lia. now rewrite Nat.sub_diag.
  - now apply find_closest_first_minimum.
Qed.

Lemma find_closest_tie_break_witness :
  nth_error ([rgb 9 9 9] ++ rgb 0 0 0 :: [rgb 2 0 0; rgb 0 0 0]) 1 = Some (rgb 0 0 0) /\
  find_closest (rgb 1 0 0) ([rgb 9 9 9] ++ rgb 0 0 0 :: [rgb 2 0 0; rgb 0 0 0])
  = opaque_copy (rgb 0 0 0).
Proof.
  apply (find_closest_tie_break (rgb 1 0 0) (rgb 0 0 0) [rgb 9 9 9]
           [rgb 2 0 0; rgb 0 0 0]).
  - reflexivity.
  - reflexivity.
  - intros q' [<-|[]]. vm_compute. reflexivity.
  - intros q' [<-|[<-|[]]]; vm_compute; discriminate.
Defined.

(** C7.  For an image whose bounds [image.NewRGBA] accepts and whose
    colours respect the contract of [RGBA()], and a palette that is not
    empty and made of opaque byte colours (as [load_palette] builds them),
    the image [remap] builds has the bounds of the input, and each of its
    pixels within the bounds is an entry of the palette. *)
Theorem remap_image_closure (img : image.Image) (p : color.Palette) :
  image.fits (image.Bounds img) = true ->
  (forall x y, color.valid (image.At img x y) = true) ->
  p <> [] -> forallb color.opaque8 p = true ->
  exists remapped,
    remap_image img p = Some remapped /\
    image.Rect remapped = image.Bounds img /\
    forall x y, image.Point_In (image.mkPoint x y) (image.Bounds img) = true ->
      In (color.of_RGBA (image.RGBAAt remapped x y)) p.
Proof.
  intros Hfits Himg Hne Hop.
  destruct (remap_image_spec img p Hfits) as (remapped & Hr & Hrect & Hat).
  exists remapped. split; [assumption|]. split; [assumption|].
  intros x y Hin. rewrite Hat by assumption.
  destruct (find_closest_entry (image.At img x y) p (Himg x y)
              (forallb_opaque8_valid p Hop) Hne) as (q & Hq & ->).
  rewrite opaque8_copy; [assumption|].
  rewrite forallb_forall in Hop. now apply Hop.
Qed.

Lemma remap_image_closure_witness :
  exists remapped,
    remap_image (one_pixel (rgb 10 10 10)) (fst (load_palette black_white_file))
    = Some remapped /\
    image.Rect remapped = image.Bounds (one_pixel (rgb 10 10 10)) /\
    forall x y,
      image.Point_In (image.mkPoint x y) (image.Bounds (one_pixel (rgb 10 10 10))) = true ->
      In (color.of_RGBA (image.RGBAAt remapped x y)) (fst (load_palette black_white_file)).
Proof.
  apply (remap_image_closure (one_pixel (rgb 10 10 10))
           (fst (load_palette black_white_file))).
  - reflexivity.
  - intros x y. reflexivity.
  - vm_compute. discriminate.
  - vm_compute. reflexivity.
Defined.

(** C8.  In custom-only mode with no custom palette, [identify] returns
    status 2 with the error about the flag, and does nothing else: the
    embedded directory is neither listed nor opened, and nothing is
    printed. *)
Theorem identify_custom_only_without_palettes (env : Env) (img : image.Image) :
  identify env img [] true = ((2, Some (missing_candidate env)), []).
Proof. reflexivity. Qed.

(** The part of the no-match outcome that the code does give.  When every
    custom palette decodes and does not verify the image, and the mode is
    not custom-only with an empty list, and (outside custom-only mode) the
    embedded directory can be listed and each palette file in it opens,
    decodes and does not verify the image, then [identify] returns status 0
    and no error; outside custom-only mode the last thing it does is print
    the no-match line. *)
Lemma identify_no_match_succeeds (env : Env) (img : image.Image)
    (custom_pals : list os.File) (custom_only : bool) :
  forallb (fun pal => rejects img (os.content pal)) custom_pals = true ->
  (custom_only = true -> custom_pals <> []) ->
  (custom_only = false ->
   exists entries,
     palettes_ReadDir env "palettes" = (entries, None) /\
     forallb (fun entry => negb (is_candidate entry) || builtin_rejects env img entry)
             entries = true) ->
  fst (identify env img custom_pals custom_only) = (0, None) /\
  (custom_only = false ->
   exists evs,
     snd (identify env img custom_pals custom_only) = evs ++ [EvPrintln no_match_line]).
Proof.
  intros Hcustom Hmode Hbuiltin. unfold identify.
  rewrite identify_custom_rejected by assumption.
  destruct custom_only; cbn [andb].
  - destruct custom_pals as [|pal rest]; [now destruct Hmode|].
    cbn. split; [reflexivity | discriminate].
  - destruct (Hbuiltin eq_refl) as (entries & -> & Hentries).
    destruct (identify_builtin_rejected env img entries Hentries) as (evs & ->).
    cbn [fst snd app]. split; [reflexivity|]. intros _.
    exists (EvReadDir "palettes" :: evs). reflexivity.
Qed.

Lemma identify_no_match_succeeds_witness :
  fst (identify one_builtin_env (one_pixel (rgb 10 10 10))
         [os.mkFile "x.pal" black_white_file] false) = (0, None) /\
  (false = false ->
   exists evs,
     snd (identify one_builtin_env (one_pixel (rgb 10 10 10))
            [os.mkFile "x.pal" black_white_file] false)
     = evs ++ [EvPrintln no_match_line]).
Proof.
  apply (identify_no_match_succeeds one_builtin_env (one_pixel (rgb 10 10 10))
           [os.mkFile "x.pal" black_white_file] false).
  - vm_compute. reflexivity.
  - discriminate.
  - intros _. exists [fs.mkDirEntry "bw.pal" false]. split; vm_compute; reflexivity.
Defined.

(** C9.  The claim: whenever no candidate palette verifies the image,
    identification succeeds and carries a negative verdict.  In custom-only
    mode with a custom palette that decodes and does not verify the image,
    [identify] leaves through the early [return 0, nil] that follows the
    first loop: the status is 0 and nothing at all has been printed, so
    the result carries no verdict.  With the same image and palettes and
    the flag off, where the one built-in palette does not verify the image
    either, the no-match line is printed before the same status is
    returned. *)
Theorem identify_custom_only_no_match_has_no_verdict :
  rejects (one_pixel (rgb 10 10 10)) black_white_file = true /\
  identify one_builtin_env (one_pixel (rgb 10 10 10))
    [os.mkFile "bw.pal" black_white_file] true
  = ((0, None), []) /\
  identify one_builtin_env (one_pixel (rgb 10 10 10))
    [os.mkFile "bw.pal" black_white_file] false
  = ((0, None),
     [EvReadDir "palettes"; EvOpen "palettes/bw.pal"; EvPrintln no_match_line]).
Proof. repeat split; vm_compute; reflexivity. Qed.

(** C10.  On the empty palette [find_closest] returns the zero colour: the
    loop body never runs and [closest] keeps its initial value. *)
Theorem find_closest_empty_palette (c : color.Color) :
  find_closest c [] = color.mkRGBA 0 0 0 0.
Proof. reflexivity. Qed.

(** * Further properties *)

(** ** Channels *)

Lemma uint8_id (v : Z) : 0 <= v < 256 -> uint8 v = v.
Proof.
  intros H. unfold uint8. change 255 with (Z.ones 8). rewrite Z.land_ones by lia.
  apply Z.mod_small. change (2 ^ 8) with 256. lia.
Qed.

Lemma weighted_sum_zero (a b c : Z) :
  2 * (a * a) + 3 * (b * b) + 1 * (c * c) = 0 -> a = 0 /\ b = 0 /\ c = 0.
Proof. intros H. nia. Qed.

Lemma spec_distance_nonneg (c q : color.Color) : 0 <= spec_distance c q.
Proof.
  unfold spec_distance. cbv zeta.
  pose proof (Z.square_nonneg (Z.shiftr (color.r16 c) 8 - Z.shiftr (color.r16 q) 8)).
  pose proof (Z.square_nonneg (Z.shiftr (color.g16 c) 8 - Z.shiftr (color.g16 q) 8)).
  pose proof (Z.square_nonneg (Z.shiftr (color.b16 c) 8 - Z.shiftr (color.b16 q) 8)).
  lia.
Qed.

(** For colours within the contract, the weighted sum is zero exactly when
    the three byte channels agree. *)
Lemma spec_distance_zero (c q : color.Color) :
  color.valid c = true -> color.valid q = true ->
  spec_distance c q = 0 <-> color.rgb8 c = color.rgb8 q.
Proof.
  intros Hc Hq.
  destruct (valid_channels c Hc) as (Hcr & Hcg & Hcb).
  destruct (valid_channels q Hq) as (Hqr & Hqg & Hqb).
  unfold color.rgb8. rewrite !uint8_id by assumption. split.
  - intros H. apply weighted_sum_zero in H as (Hr & Hg & Hb).
    f_equal; [f_equal|]; lia.
  - intros H. injection H as Hr Hg Hb. unfold spec_distance. cbv zeta.
    rewrite Hr, Hg, Hb, !Z.sub_diag. reflexivity.
Qed.

Lemma opaque_copy_rgb8 (c q : color.Color) :
  color.rgb8 c = color.rgb8 q -> opaque_copy c = opaque_copy q.
Proof.
  unfold color.rgb8, opaque_copy. intros H. injection H as -> -> ->. reflexivity.
Qed.

Lemma rgb_of_opaque_copy (q : color.Color) :
  color.rgb_of (opaque_copy q) = color.rgb8 q.
Proof. reflexivity. Qed.

Lemma rgb8_of_RGBA (c : color.RGBA) :
  bytes_RGBA c = true -> color.rgb8 (color.of_RGBA c) = color.rgb_of c.
Proof.
  unfold bytes_RGBA. rewrite !andb_true_iff. intros [[[Hr Hg] Hb] _].
  unfold color.rgb8, color.rgb_of, color.of_RGBA.
  cbn [color.r16 color.g16 color.b16]. now rewrite !widen_round_trip.
Qed.

Lemma of_RGBA_valid (c : color.RGBA) :
  bytes_RGBA c = true -> color.valid (color.of_RGBA c) = true.
Proof.
  unfold bytes_RGBA. rewrite !andb_true_iff. intros [[[Hr Hg] Hb] Ha].
  unfold color.valid, color.of_RGBA.
  cbn [color.r16 color.g16 color.b16 color.a16]. now rewrite !widen_in16.
Qed.

(** ** [find_closest]: the nearest entry *)

Lemma scan_minimum (c : color.Color) (p : color.Palette) :
  color.valid c = true -> forallb color.valid p = true ->
  forall q0, color.valid q0 = true ->
  exists q, In q (q0 :: p) /\
    fold_left (find_closest_step c) p (distance c q0, opaque_copy q0)
    = (distance c q, opaque_copy q) /\
    forall q', In q' (q0 :: p) -> spec_distance c q <= spec_distance c q'.
Proof.
  intros Hc. induction p as [|q1 p IH]; intros Hp q0 Hq0; cbn [fold_left].
  - exists q0. split; [now left|]. split; [reflexivity|].
    intros q' [<-|[]]. lia.
  - cbn [forallb] in Hp. apply andb_true_iff in Hp as [Hq1 Hp].
    destruct (distance c q1 <? distance c q0)%float eqn:E.
    + rewrite find_closest_step_take by assumption.
      rewrite distance_ltb in E by assumption. apply Z.ltb_lt in E.
      destruct (IH Hp q1 Hq1) as (q & Hin & Hq & Hmin).
      exists q. split; [now right|]. split; [assumption|].
      intros q' [<-|Hq']; [|now apply Hmin].
      specialize (Hmin q1 (or_introl eq_refl)). lia.
    + rewrite find_closest_step_keep by assumption.
      rewrite distance_ltb in E by assumption. apply Z.ltb_ge in E.
      destruct (IH Hp q0 Hq0) as (q & Hin & Hq & Hmin).
      exists q. split; [destruct Hin as [<-|Hin]; [now left | now right; right]|].
      split; [assumption|].
      intros q' [<-|[<-|Hq']].
      * apply Hmin. now left.
      * specialize (Hmin q0 (or_introl eq_refl)). lia.
      * apply Hmin. now right.
Qed.

Lemma find_closest_minimum (c : color.Color) (p : color.Palette) :
  color.valid c = true -> forallb color.valid p = true -> p <> [] ->
  exists q, In q p /\ find_closest c p = opaque_copy q /\
    forall q', In q' p -> spec_distance c q <= spec_distance c q'.
Proof.
  intros Hc Hp Hne. destruct p as [|q0 p]; [congruence|].
  cbn [forallb] in Hp. apply andb_true_iff in Hp as [Hq0 Hp].
  unfold find_closest. cbn [fold_left].
  rewrite find_closest_step_take by now apply distance_below_max.
  destruct (scan_minimum c p Hc Hp q0 Hq0) as (q & Hin & Hq & Hmin).
  exists q. split; [assumption|]. split; [now rewrite Hq | assumption].
Qed.

(** A colour whose byte channels are those of some palette entry is its own
    nearest colour. *)
Lemma find_closest_member (c q : color.Color) (p : color.Palette) :
  color.valid c = true -> forallb color.valid p = true ->
  In q p -> color.rgb8 q = color.rgb8 c ->
  find_closest c p = opaque_copy c.
Proof.
  intros Hc Hp Hin Hrgb.
  assert (Hne : p <> []) by (intros ->; destruct Hin).
  destruct (find_closest_minimum c p Hc Hp Hne) as (q' & Hin' & -> & Hmin).
  rewrite forallb_forall in Hp.
  apply opaque_copy_rgb8. symmetry. apply spec_distance_zero; [assumption | now apply Hp |].
  specialize (Hmin q Hin).
  assert (spec_distance c q = 0)
    by (apply spec_distance_zero; [assumption | now apply Hp | now symmetry]).
  pose proof (spec_distance_nonneg c q'). lia.
Qed.

(** ** [has_palette]: what verifying means *)

Lemma has_palette_members (img : image.Image) (p : color.Palette) :
  (forall x y, color.valid (image.At img x y) = true) ->
  forallb color.valid p = true -> p <> [] ->
  has_palette img p = true <->
  forall x y, image.Point_In (image.mkPoint x y) (image.Bounds img) = true ->
    exists q, In q p /\ color.rgb8 q = color.rgb8 (image.At img x y).
Proof.
  intros Himg Hp Hne. rewrite has_palette_true. split; intros H x y Hin.
  - destruct (find_closest_entry (image.At img x y) p (Himg x y) Hp Hne)
      as (q & Hq & Heq).
    exists q. split; [assumption|].
    specialize (H x y Hin). rewrite Heq, rgb_of_opaque_copy in H. now symmetry.
  - destruct (H x y Hin) as (q & Hq & Hrgb).
    now rewrite (find_closest_member _ q p (Himg x y) Hp Hq Hrgb), rgb_of_opaque_copy.
Qed.

Lemma points_empty (b : image.Rectangle) :
  image.Dx b <= 0 \/ image.Dy b <= 0 -> points b = [].
Proof.
  intros H. unfold points, rows, columns. destruct H as [H|H].
  - replace (Z.to_nat (image.Dx b)) with O by lia. cbn [zrange map].
    induction (zrange _ _) as [|y ys IH]; [reflexivity | exact IH].
  - replace (Z.to_nat (image.Dy b)) with O by lia. reflexivity.
Qed.

(** ** [remap]: the image it builds verifies *)

Lemma remap_image_pixels (img : image.Image) (p : color.Palette) :
  image.fits (image.Bounds img) = true ->
  (forall x y, color.valid (image.At img x y) = true) ->
  forallb color.valid p = true -> p <> [] ->
  exists remapped,
    remap_image img p = Some remapped /\
    image.Rect remapped = image.Bounds img /\
    forall x y, image.Point_In (image.mkPoint x y) (image.Bounds img) = true ->
      exists q, In q p /\ image.RGBAAt remapped x y = opaque_copy q.
Proof.
  intros Hfits Himg Hp Hne.
  destruct (remap_image_spec img p Hfits) as (remapped & Hr & Hrect & Hat).
  exists remapped. split; [assumption|]. split; [assumption|].
  intros x y Hin. rewrite Hat by assumption.
  now apply find_closest_entry.
Qed.

Lemma RGBAAt_bytes_after_remap (img : image.Image) (p : color.Palette)
    (remapped : image.RGBA) (x y : Z) :
  remap_image img p = Some remapped -> bytes_RGBA (image.RGBAAt remapped x y) = true.
Proof.
  intros H. unfold remap_image, image.NewRGBA in H.
  destruct (image.fits _); [|discriminate]. injection H as <-.
  unfold image.RGBAAt. destruct (image.Point_In _ _); [|reflexivity].
  rewrite remap_rows_Pix. destruct (_ && _); [apply find_closest_bytes | reflexivity].
Qed.

Lemma remap_image_verifies_aux (img : image.Image) (p : color.Palette) :
  image.fits (image.Bounds img) = true ->
  (forall x y, color.valid (image.At img x y) = true) ->
  forallb color.valid p = true -> p <> [] ->
  exists remapped,
    remap_image img p = Some remapped /\
    image.Rect remapped = image.Bounds img /\
    (forall x y, color.valid (image.At (RGBA_Image remapped) x y) = true) /\
    (forall x y, image.Point_In (image.mkPoint x y) (image.Bounds img) = true ->
       exists q, In q p /\
         color.rgb8 q = color.rgb8 (image.At (RGBA_Image remapped) x y)).
Proof.
  intros Hfits Himg Hp Hne.
  destruct (remap_image_pixels img p Hfits Himg Hp Hne)
    as (remapped & Hr & Hrect & Hpix).
  exists remapped. split; [assumption|]. split; [assumption|]. split.
  - intros x y. cbn [RGBA_Image image.At].
    apply of_RGBA_valid. now apply (RGBAAt_bytes_after_remap img p).
  - intros x y Hin. destruct (Hpix x y Hin) as (q & Hq & Heq).
    exists q. split; [assumption|]. cbn [RGBA_Image image.At].
    rewrite Heq, rgb8_of_RGBA by apply opaque_copy_bytes.
    now rewrite rgb_of_opaque_copy.
Qed.

(** ** [load_palette]: the bytes it reads *)

Lemma byte_at_data (pal extra : list byte) (i : nat) :
  (i < List.length pal)%nat -> byte_at (pal ++ extra) i = byte_at pal i.
Proof. intros H. unfold byte_at. now rewrite app_nth1. Qed.

Lemma ReadFull_full (pal : io.Reader) (n : nat) :
  (n <= List.length pal)%nat -> io.ReadFull pal n = (firstn n pal, None).
Proof.
  intros H. unfold io.ReadFull.
  replace (n - List.length pal)%nat with O by lia. cbn [repeat].
  rewrite app_nil_r. apply Nat.leb_le in H. now rewrite H.
Qed.

Lemma byte_at_firstn (pal : list byte) (n i : nat) :
  (i < n)%nat -> byte_at (firstn n pal) i = byte_at pal i.
Proof.
  intros H. unfold byte_at. f_equal. f_equal.
  rewrite <- (firstn_skipn n pal) at 2.
  destruct (Nat.lt_ge_cases i (List.length (firstn n pal))) as [L|L].
  - now rewrite app_nth1.
  - rewrite nth_overflow by assumption.
    rewrite length_firstn in L.
    rewrite nth_overflow; [reflexivity|].
    rewrite length_app, length_firstn, length_skipn. lia.
Qed.

Lemma load_palette_map (pal : io.Reader) :
  (192 <= List.length pal)%nat ->
  load_palette pal
  = (map (fun i => color.of_RGBA
                     (color.mkRGBA (byte_at pal (i * 3)) (byte_at pal (i * 3 + 1))
                                   (byte_at pal (i * 3 + 2)) 255))
         (seq 0 PALETTE_SIZE), None).
Proof.
  intros H. unfold load_palette. change (PALETTE_SIZE * 3)%nat with 192%nat.
  rewrite ReadFull_full by assumption. f_equal.
  apply map_ext_in. intros i Hi. apply in_seq in Hi. unfold PALETTE_SIZE in Hi.
  now rewrite !byte_at_firstn by lia.
Qed.

Lemma byte_at_inj (a b : byte) :
  Z.of_N (Byte.to_N a) = Z.of_N (Byte.to_N b) -> a = b.
Proof.
  intros H. apply N2Z.inj in H.
  pose proof (Byte.of_to_N a) as Ha. pose proof (Byte.of_to_N b) as Hb.
  rewrite H in Ha. rewrite Ha in Hb. now injection Hb.
Qed.

Lemma widen_inj (u v : Z) :
  is_byte u = true -> is_byte v = true -> color.widen u = color.widen v -> u = v.
Proof.
  intros Hu Hv H. rewrite <- (widen_round_trip u Hu), <- (widen_round_trip v Hv).
  now rewrite H.
Qed.

(** ** [identify]: the two loops *)

Lemma identify_custom_skip (img : image.Image) (pre rest : list os.File) :
  forallb (fun pal => rejects img (os.content pal)) pre = true ->
  identify_custom img (pre ++ rest) = identify_custom img rest.
Proof.
  induction pre as [|pal pre IH]; cbn [app forallb identify_custom]; [reflexivity|].
  intros H. apply andb_true_iff in H as [Hpal Hpre]. unfold rejects in Hpal.
  destruct (load_palette (os.content pal)) as [p [e|]]; [discriminate|].
  apply negb_true_iff in Hpal. rewrite Hpal. now apply IH.
Qed.

Lemma identify_custom_outcomes (img : image.Image) (custom_pals : list os.File) :
  (identify_custom img custom_pals = (None, [])) \/
  (exists pal, In pal custom_pals /\
     identify_custom img custom_pals
     = (Some (0, None), [EvPrintln (found_line (os.Name pal))])) \/
  (exists e, identify_custom img custom_pals = (Some (1, Some e), [])).
Proof.
  induction custom_pals as [|pal rest IH]; cbn [identify_custom]; [now left|].
  destruct (load_palette (os.content pal)) as [p [e|]].
  - right. right. now exists e.
  - destruct (has_palette img p).
    + right. left. exists pal. split; [now left | reflexivity].
    + destruct IH as [H|[(pal' & Hin & H)|H]]; [now left | | now right; right].
      right. left. exists pal'. split; [now right | assumption].
Qed.

(** One turn of the second loop, case by case. *)
Ltac builtin_turn env img entry rest :=
  cbn [identify_builtin];
  destruct (fs.IsDir entry || negb (filepath.Ext (fs.Name entry) =? ".pal")%string)
    eqn:?Hskip;
  [ | destruct (palettes_Open env (filepath.Join "palettes" (fs.Name entry)))
        as [?file [?e|]];
      [ | destruct (load_palette file) as [?p [?e|]];
          [ | destruct (has_palette img p);
              [ | destruct (identify_builtin env img rest) as [?r ?evs] ] ] ] ];
  cbn [fst snd In] in *.

Lemma identify_builtin_result (env : Env) (img : image.Image)
    (entries : list fs.DirEntry) :
  fst (identify_builtin env img entries) = None \/
  fst (identify_builtin env img entries) = Some (0, None) \/
  exists e, fst (identify_builtin env img entries) = Some (1, Some e).
Proof.
  induction entries as [|entry rest IH]; [now left|].
  builtin_turn env img entry rest; eauto.
Qed.

(** The second loop opens palette files of the listing only. *)
Lemma identify_builtin_opens (env : Env) (img : image.Image)
    (entries : list fs.DirEntry) (path : string) :
  In (EvOpen path) (snd (identify_builtin env img entries)) ->
  exists entry, In entry entries /\ is_candidate entry = true /\
                path = filepath.Join "palettes" (fs.Name entry).
Proof.
  induction entries as [|entry rest IH]; [intros []|].
  assert (Hself : is_candidate entry = false \/
            exists en, In en (entry :: rest) /\ is_candidate en = true /\
              filepath.Join "palettes" (fs.Name entry)
              = filepath.Join "palettes" (fs.Name en)).
  { destruct (is_candidate entry) eqn:E; [right | now left].
    exists entry. repeat split; [now left | assumption]. }
  assert (Hrest : In (EvOpen path) (snd (identify_builtin env img rest)) ->
            exists en, In en (entry :: rest) /\ is_candidate en = true /\
                       path = filepath.Join "palettes" (fs.Name en)).
  { intros H. destruct (IH H) as (en & ? & ? & ?).
    exists en. repeat split; [now right | assumption | assumption]. }
  unfold is_candidate in Hself.
  builtin_turn env img entry rest;
    try (intros H; repeat destruct H as [H|H]; try discriminate; try contradiction;
         try (injection H as <-; destruct Hself as [Hs|Hs]; [discriminate | exact Hs]));
    auto.
Qed.

Lemma identify_builtin_no_listing (env : Env) (img : image.Image)
    (entries : list fs.DirEntry) (dir : string) :
  ~ In (EvReadDir dir) (snd (identify_builtin env img entries)).
Proof.
  induction entries as [|entry rest IH]; [intros []|].
  builtin_turn env img entry rest;
    try (intros H; repeat destruct H as [H|H]; try discriminate; try contradiction);
    auto.
Qed.

(** The second loop prints only the line of a match, and then returns
    status 0. *)
Lemma identify_builtin_prints (env : Env) (img : image.Image)
    (entries : list fs.DirEntry) (line : string) :
  In (EvPrintln line) (snd (identify_builtin env img entries)) ->
  fst (identify_builtin env img entries) = Some (0, None) /\
  exists entry, In entry entries /\ line = found_line (fs.Name entry).
Proof.
  induction entries as [|entry rest IH]; [intros []|].
  assert (Hrest : In (EvPrintln line) (snd (identify_builtin env img rest)) ->
            fst (identify_builtin env img rest) = Some (0, None) /\
            exists en, In en (entry :: rest) /\ line = found_line (fs.Name en)).
  { intros H. destruct (IH H) as (? & en & ? & ?). split; [assumption|].
    exists en. split; [now right | assumption]. }
  builtin_turn env img entry rest;
    try (intros H; repeat destruct H as [H|H]; try discriminate; try contradiction;
         try (injection H as <-; split; [reflexivity|];
              exists entry; split; [now left | reflexivity]));
    auto.
Qed.

(** ** [filepath.Ext] on a path that ends with a dot and a plain suffix *)

Lemma substring_all (s : string) : substring 0 (String.length s) s = s.
Proof. induction s as [|c s IH]; cbn; [reflexivity | now rewrite IH]. Qed.

Lemma substring_skip (s1 s2 : string) :
  substring (String.length s1) (String.length s2) (s1 ++ s2)%string = s2.
Proof. induction s1 as [|c s1 IH]; cbn; [apply substring_all | exact IH]. Qed.

Lemma length_append (s1 s2 : string) :
  String.length (s1 ++ s2)%string = (String.length s1 + String.length s2)%nat.
Proof. induction s1 as [|c s1 IH]; cbn; [reflexivity | now rewrite IH]. Qed.

Lemma get_plain (s : string) (k : nat) (c : ascii) :
  plain s = true -> String.get k s = Some c ->
  Ascii.eqb c "."%char = false /\ filepath.IsPathSeparator c = false.
Proof.
  revert k. induction s as [|c0 s IH]; intros k Hp Hg; [discriminate|].
  cbn [plain] in Hp. apply andb_true_iff in Hp as [Hc0 Hp].
  apply andb_true_iff in Hc0 as [Hdot Hsep].
  destruct k as [|k]; cbn in Hg.
  - injection Hg as <-. now rewrite negb_true_iff in Hdot, Hsep.
  - now apply (IH k).
Qed.

Lemma get_in_range (s : string) (k : nat) :
  (k < String.length s)%nat -> String.get k s <> None.
Proof.
  revert k. induction s as [|c s IH]; intros k Hk; cbn in Hk; [lia|].
  destruct k as [|k]; cbn; [discriminate | apply IH; lia].
Qed.

Lemma Ext_from_suffix (stem ext : string) (k : nat) :
  plain ext = true -> (k <= String.length ext)%nat ->
  filepath.Ext_from (stem ++ String "." ext) (String.length stem + 1 + k)
  = String "." ext.
Proof.
  intros Hp. induction k as [|k IH]; intros Hk.
  - replace (String.length stem + 1 + 0)%nat with (S (String.length stem)) by lia.
    cbn [filepath.Ext_from].
    pose proof (append_correct2 stem (String "." ext) 0) as Hget.
    cbn [Nat.add String.get] in Hget. rewrite <- Hget.
    cbn [filepath.IsPathSeparator Ascii.eqb Bool.eqb andb].
    rewrite length_append.
    replace (String.length stem + String.length (String "." ext) - String.length stem)%nat
      with (String.length (String "." ext)) by lia.
    apply substring_skip.
  - replace (String.length stem + 1 + S k)%nat
      with (S (String.length stem + 1 + k)) by lia.
    cbn [filepath.Ext_from].
    replace (String.length stem + 1 + k)%nat with (S k + String.length stem)%nat by lia.
    rewrite <- (append_correct2 stem (String "." ext) (S k)). cbn [String.get].
    destruct (String.get k ext) as [c|] eqn:Hg.
    + destruct (get_plain ext k c Hp Hg) as [Hdot Hsep]. rewrite Hsep, Hdot.
      replace (S k + String.length stem)%nat with (String.length stem + 1 + k)%nat by lia.
      apply IH. lia.
    + exfalso. apply (get_in_range ext k); [lia | assumption].
Qed.

Lemma Ext_suffix (stem ext : string) :
  plain ext = true -> filepath.Ext (stem ++ String "." ext) = String "." ext.
Proof.
  intros Hp. unfold filepath.Ext. rewrite length_append. cbn [String.length].
  replace (String.length stem + S (String.length ext))%nat
    with (String.length stem + 1 + String.length ext)%nat by lia.
  now apply Ext_from_suffix.
Qed.

Lemma Ext_from_plain (s : string) (k : nat) :
  plain s = true -> filepath.Ext_from s k = "".
Proof.
  intros Hp. induction k as [|k IH]; [reflexivity|]. cbn [filepath.Ext_from].
  destruct (String.get k s) as [c|] eqn:Hg; [|reflexivity].
  destruct (get_plain s k c Hp Hg) as [Hdot Hsep]. now rewrite Hsep, Hdot.
Qed.

Lemma Ext_plain (s : string) : plain s = true -> filepath.Ext s = "".
Proof. intros Hp. now apply Ext_from_plain. Qed.


(** X1.  A source of at least 192 bytes decodes without error, and entry
    [i] of the palette is the colour of bytes [3i], [3i+1], [3i+2] of the
    source, with alpha 255. *)
Theorem load_palette_decodes_triplets (pal : io.Reader) (i : nat) :
  (192 <= List.length pal)%nat -> (i < 64)%nat ->
  snd (load_palette pal) = None /\
  nth_error (fst (load_palette pal)) i
  = Some (color.of_RGBA
            (color.mkRGBA (byte_at pal (i * 3)) (byte_at pal (i * 3 + 1))
                          (byte_at pal (i * 3 + 2)) 255)).
Proof.
  intros Hlen Hi. rewrite load_palette_map by assumption. cbn [fst snd].
  split; [reflexivity|].
  rewrite nth_error_map, nth_error_seq. unfold PALETTE_SIZE.
  apply Nat.ltb_lt in Hi. now rewrite Hi.
Qed.

Lemma load_palette_decodes_triplets_witness :
  snd (load_palette black_white_file) = None /\
  nth_error (fst (load_palette black_white_file)) 1
  = Some (color.of_RGBA
            (color.mkRGBA (byte_at black_white_file (1 * 3))
                          (byte_at black_white_file (1 * 3 + 1))
                          (byte_at black_white_file (1 * 3 + 2)) 255)).
Proof.
  apply (load_palette_decodes_triplets black_white_file 1).
  - apply Nat.leb_le. vm_compute. reflexivity.
  - apply Nat.ltb_lt. vm_compute. reflexivity.
Defined.

(** X2.  Two sources of at least 192 bytes decode to the same result exactly
    when their first 192 bytes agree: bytes after the 192nd are never
    looked at, and the palette determines the bytes it was read from. *)
Theorem load_palette_first_192_bytes (a b : io.Reader) :
  (192 <= List.length a)%nat -> (192 <= List.length b)%nat ->
  load_palette a = load_palette b <-> firstn 192 a = firstn 192 b.
Proof.
  intros Ha Hb. rewrite !load_palette_map by assumption. split.
  - intros H. apply (f_equal fst) in H. cbn [fst] in H.
    pose proof (proj1 map_ext_in_iff H) as H'. clear H. rename H' into H.
    apply (nth_ext _ _ x00 x00).
    + rewrite !length_firstn. lia.
    + intros j Hj. rewrite length_firstn in Hj.
      rewrite !nth_firstn.
      replace (j <? 192)%nat with true by (symmetry; apply Nat.ltb_lt; lia).
      pose proof (Nat.div_mod_eq j 3) as Hj3.
      pose proof (Nat.mod_upper_bound j 3 ltac:(lia)) as Hm.
      remember (j / 3)%nat as q eqn:Eq. remember (j mod 3)%nat as m eqn:Em.
      specialize (H q). unfold PALETTE_SIZE in H.
      rewrite in_seq in H. specialize (H ltac:(lia)).
      unfold color.of_RGBA in H.
      cbn [color.R color.G color.B color.A] in H. injection H as H0 H1 H2.
      apply widen_inj in H0, H1, H2; try apply byte_at_byte.
      apply byte_at_inj in H0, H1, H2.
      destruct m as [|[|[|m]]]; [| | |lia].
      * replace j with (q * 3)%nat by lia. exact H0.
      * replace j with (q * 3 + 1)%nat by lia. exact H1.
      * replace j with (q * 3 + 2)%nat by lia. exact H2.
  - intros H. f_equal. apply map_ext_in. intros i Hi. apply in_seq in Hi.
    unfold PALETTE_SIZE in Hi.
    rewrite <- !(byte_at_firstn a 192) by lia.
    rewrite <- !(byte_at_firstn b 192) by lia.
    now rewrite H.
Qed.

Lemma load_palette_first_192_bytes_witness :
  load_palette (black_white_file ++ [x07; x08]) = load_palette black_white_file <->
  firstn 192 (black_white_file ++ [x07; x08]) = firstn 192 black_white_file.
Proof.
  apply (load_palette_first_192_bytes (black_white_file ++ [x07; x08]) black_white_file).
  - apply Nat.leb_le. vm_compute. reflexivity.
  - apply Nat.leb_le. vm_compute. reflexivity.
Defined.

(** X3.  For colours within the contract of [RGBA()], [distance] is the
    correctly rounded square root of the weighted sum of squares: the
    subtractions, products and sums before the root are all exact. *)
Theorem distance_is_rounded_root (c q : color.Color) :
  color.valid c = true -> color.valid q = true ->
  distance c q = math.Sqrt (float64 (spec_distance c q)) /\
  0 <= spec_distance c q <= 390150.
Proof.
  intros Hc Hq. split; [now apply distance_sqrt | now apply spec_distance_range].
Qed.

Lemma distance_is_rounded_root_witness :
  distance (rgb 10 20 30) (rgb 200 100 0)
  = math.Sqrt (float64 (spec_distance (rgb 10 20 30) (rgb 200 100 0))) /\
  0 <= spec_distance (rgb 10 20 30) (rgb 200 100 0) <= 390150.
Proof.
  apply (distance_is_rounded_root (rgb 10 20 30) (rgb 200 100 0)); reflexivity.
Defined.

(** X4.  The comparison of two distances in [find_closest] gives the same
    answer as the comparison of the two weighted sums: taking the root and
    rounding never changes, merges or reverses the order. *)
Theorem distance_order_is_sum_order (c q q' : color.Color) :
  color.valid c = true -> color.valid q = true -> color.valid q' = true ->
  (distance c q <? distance c q')%float = (spec_distance c q <? spec_distance c q').
Proof. intros Hc Hq Hq'. now apply distance_ltb. Qed.

Lemma distance_order_is_sum_order_witness :
  (distance (rgb 1 0 0) (rgb 0 0 0) <? distance (rgb 1 0 0) (rgb 0 0 2))%float
  = (spec_distance (rgb 1 0 0) (rgb 0 0 0) <? spec_distance (rgb 1 0 0) (rgb 0 0 2)).
Proof.
  apply (distance_order_is_sum_order (rgb 1 0 0) (rgb 0 0 0) (rgb 0 0 2)); reflexivity.
Defined.

(** X5.  On a palette that is not empty, [find_closest] returns the opaque
    copy of an entry whose weighted sum to the colour is the least of the
    palette. *)
Theorem find_closest_returns_nearest (c : color.Color) (p : color.Palette) :
  color.valid c = true -> forallb color.valid p = true -> p <> [] ->
  exists q, In q p /\ find_closest c p = opaque_copy q /\
    forall q', In q' p -> spec_distance c q <= spec_distance c q'.
Proof. intros Hc Hp Hne. now apply find_closest_minimum. Qed.

Lemma find_closest_returns_nearest_witness :
  exists q, In q [rgb 0 0 0; rgb 255 255 255] /\
    find_closest (rgb 200 180 190) [rgb 0 0 0; rgb 255 255 255] = opaque_copy q /\
    forall q', In q' [rgb 0 0 0; rgb 255 255 255] ->
      spec_distance (rgb 200 180 190) q <= spec_distance (rgb 200 180 190) q'.
Proof.
  apply (find_closest_returns_nearest (rgb 200 180 190) [rgb 0 0 0; rgb 255 255 255]).
  - reflexivity.
  - reflexivity.
  - discriminate.
Defined.

(** X6.  A colour whose three byte channels are those of some palette entry
    is mapped to itself (made opaque), wherever the entry stands in the
    palette. *)
Theorem find_closest_keeps_palette_colours (c q : color.Color) (p : color.Palette) :
  color.valid c = true -> forallb color.valid p = true ->
  In q p -> color.rgb8 q = color.rgb8 c ->
  find_closest c p = opaque_copy c.
Proof. intros Hc Hp Hin Hrgb. now apply (find_closest_member c q p). Qed.

Lemma find_closest_keeps_palette_colours_witness :
  find_closest (rgb 255 255 255) (fst (load_palette black_white_file))
  = opaque_copy (rgb 255 255 255).
Proof.
  apply (find_closest_keeps_palette_colours (rgb 255 255 255) (rgb 255 255 255)
           (fst (load_palette black_white_file))).
  - reflexivity.
  - vm_compute. reflexivity.
  - right. left. vm_compute. reflexivity.
  - reflexivity.
Defined.

(** X7.  For an image whose colours respect the contract and a palette that
    is not empty, [has_palette] holds exactly when every pixel within the
    bounds has the three byte channels of some palette entry. *)
Theorem has_palette_iff_colours_in_palette (img : image.Image) (p : color.Palette) :
  (forall x y, color.valid (image.At img x y) = true) ->
  forallb color.valid p = true -> p <> [] ->
  has_palette img p = true <->
  forall x y, image.Point_In (image.mkPoint x y) (image.Bounds img) = true ->
    exists q, In q p /\ color.rgb8 q = color.rgb8 (image.At img x y).
Proof. intros Himg Hp Hne. now apply has_palette_members. Qed.

Lemma has_palette_iff_colours_in_palette_witness :
  has_palette (one_pixel (rgb 255 255 255)) [rgb 0 0 0; rgb 255 255 255] = true <->
  forall x y,
    image.Point_In (image.mkPoint x y) (image.Bounds (one_pixel (rgb 255 255 255))) = true ->
    exists q, In q [rgb 0 0 0; rgb 255 255 255] /\
              color.rgb8 q = color.rgb8 (image.At (one_pixel (rgb 255 255 255)) x y).
Proof.
  apply (has_palette_iff_colours_in_palette (one_pixel (rgb 255 255 255))
           [rgb 0 0 0; rgb 255 255 255]).
  - intros x y. reflexivity.
  - reflexivity.
  - discriminate.
Defined.

(** X8.  On an image whose bounds hold no point (zero or negative width or
    height) [has_palette] returns [true] for every palette, without reading
    a pixel. *)
Theorem has_palette_empty_image (img : image.Image) (p : color.Palette) :
  image.Dx (image.Bounds img) <= 0 \/ image.Dy (image.Bounds img) <= 0 ->
  has_palette_visits img p = (true, []).
Proof.
  intros H. rewrite has_palette_visits_spec, (points_empty _ H). reflexivity.
Qed.

Lemma has_palette_empty_image_witness :
  has_palette_visits
    (image.mkImage (image.mkRect (image.mkPoint 3 5) (image.mkPoint 3 9))
                   (fun _ _ => rgb 1 2 3)) []
  = (true, []).
Proof.
  apply (has_palette_empty_image
           (image.mkImage (image.mkRect (image.mkPoint 3 5) (image.mkPoint 3 9))
                          (fun _ _ => rgb 1 2 3)) []).
  left. vm_compute. discriminate.
Defined.

(** X9.  With the empty palette, [has_palette] holds exactly when every
    pixel within the bounds has its three byte channels at zero: the zero
    colour [find_closest] then returns is compared like any other. *)
Theorem has_palette_empty_palette (img : image.Image) :
  has_palette img [] = true <->
  forall x y, image.Point_In (image.mkPoint x y) (image.Bounds img) = true ->
    color.rgb8 (image.At img x y) = (0, 0, 0).
Proof. rewrite has_palette_true. reflexivity. Qed.

(** X10.  The image [remap] builds verifies against the palette it was
    built with: [has_palette] holds of it. *)
Theorem remap_output_verifies (img : image.Image) (p : color.Palette) :
  image.fits (image.Bounds img) = true ->
  (forall x y, color.valid (image.At img x y) = true) ->
  forallb color.valid p = true -> p <> [] ->
  exists remapped,
    remap_image img p = Some remapped /\
    has_palette (RGBA_Image remapped) p = true.
Proof.
  intros Hfits Himg Hp Hne.
  destruct (remap_image_verifies_aux img p Hfits Himg Hp Hne)
    as (remapped & Hr & Hrect & Hvalid & Hmem).
  exists remapped. split; [assumption|].
  apply has_palette_members; [assumption | assumption | assumption |].
  intros x y Hin. apply Hmem. cbn [RGBA_Image image.Bounds] in Hin.
  now rewrite Hrect in Hin.
Qed.

Lemma remap_output_verifies_witness :
  exists remapped,
    remap_image (one_pixel (rgb 10 10 10)) [rgb 0 0 0; rgb 255 255 255] = Some remapped /\
    has_palette (RGBA_Image remapped) [rgb 0 0 0; rgb 255 255 255] = true.
Proof.
  apply (remap_output_verifies (one_pixel (rgb 10 10 10)) [rgb 0 0 0; rgb 255 255 255]).
  - reflexivity.
  - intros x y. reflexivity.
  - reflexivity.
  - discriminate.
Defined.

(** X11.  Remapping is idempotent: remapping the image [remap] built, with
    the same palette, gives an image with the same rectangle and the same
    colour at every point. *)
Theorem remap_image_idempotent (img : image.Image) (p : color.Palette) :
  image.fits (image.Bounds img) = true ->
  (forall x y, color.valid (image.At img x y) = true) ->
  forallb color.valid p = true -> p <> [] ->
  exists once twice,
    remap_image img p = Some once /\
    remap_image (RGBA_Image once) p = Some twice /\
    image.Rect twice = image.Rect once /\
    forall x y, image.RGBAAt twice x y = image.RGBAAt once x y.
Proof.
  intros Hfits Himg Hp Hne.
  destruct (remap_image_pixels img p Hfits Himg Hp Hne) as (once & Hr & Hrect & Hpix).
  assert (Hfits' : image.fits (image.Bounds (RGBA_Image once)) = true)
    by (cbn [RGBA_Image image.Bounds]; now rewrite Hrect).
  destruct (remap_image_spec (RGBA_Image once) p Hfits') as (twice & Hr' & Hrect' & Hat').
  cbn [RGBA_Image image.Bounds image.At] in Hrect', Hat'.
  exists once, twice. split; [assumption|]. split; [assumption|]. split; [assumption|].
  intros x y. destruct (image.Point_In (image.mkPoint x y) (image.Rect once)) eqn:Hin.
  - rewrite Hat' by assumption. rewrite Hrect in Hin.
    destruct (Hpix x y Hin) as (q & Hq & Heq). rewrite Heq.
    rewrite forallb_forall in Hp.
    rewrite (find_closest_member _ q p).
    + apply opaque_copy_rgb8. rewrite rgb8_of_RGBA by apply opaque_copy_bytes.
      apply rgb_of_opaque_copy.
    + apply of_RGBA_valid, opaque_copy_bytes.
    + now apply forallb_forall.
    + assumption.
    + rewrite rgb8_of_RGBA by apply opaque_copy_bytes. now rewrite rgb_of_opaque_copy.
  - unfold image.RGBAAt. now rewrite Hrect', Hin.
Qed.

Lemma remap_image_idempotent_witness :
  exists once twice,
    remap_image (one_pixel (rgb 10 10 10)) [rgb 0 0 0; rgb 255 255 255] = Some once /\
    remap_image (RGBA_Image once) [rgb 0 0 0; rgb 255 255 255] = Some twice /\
    image.Rect twice = image.Rect once /\
    forall x y, image.RGBAAt twice x y = image.RGBAAt once x y.
Proof.
  apply (remap_image_idempotent (one_pixel (rgb 10 10 10)) [rgb 0 0 0; rgb 255 255 255]).
  - reflexivity.
  - intros x y. reflexivity.
  - reflexivity.
  - discriminate.
Defined.

(** The ways [identify] ends. *)
Lemma identify_outcome_cases (env : Env) (img : image.Image)
    (custom_pals : list os.File) (custom_only : bool) :
  fst (identify env img custom_pals custom_only) = (0, None) \/
  (exists e, fst (identify env img custom_pals custom_only) = (1, Some e)) \/
  (fst (identify env img custom_pals custom_only) = (2, Some (missing_candidate env)) /\
   custom_only = true /\ custom_pals = []).
Proof.
  unfold identify.
  destruct (identify_custom_outcomes img custom_pals) as [H|[(pal & _ & H)|(e & H)]];
    rewrite H; cbn [fst]; [|now left | right; left; now exists e].
  destruct custom_only; cbn [andb].
  - destruct custom_pals as [|pal rest]; cbn; [right; right; auto | now left].
  - destruct (palettes_ReadDir env "palettes") as [entries [e|]];
      [right; left; now exists e|].
    destruct (identify_builtin_result env img entries) as [Hr|[Hr|(e & Hr)]];
      destruct (identify_builtin env img entries) as [r evs]; cbn [fst] in Hr; subst r;
      cbn [fst]; [now left | now left | right; left; now exists e].
Qed.

(** X12.  [identify] ends in one of three ways: status 0 with no error;
    status 1 with an error; or status 2 with the error about the flag,
    which happens only in custom-only mode with no custom palette. *)
Theorem identify_status_cases (env : Env) (img : image.Image)
    (custom_pals : list os.File) (custom_only : bool) :
  fst (identify env img custom_pals custom_only) = (0, None) \/
  (exists e, fst (identify env img custom_pals custom_only) = (1, Some e)) \/
  (fst (identify env img custom_pals custom_only) = (2, Some (missing_candidate env)) /\
   custom_only = true /\ custom_pals = []).
Proof. apply identify_outcome_cases. Qed.

(** X13.  The first custom palette that verifies the image is the one
    reported, when the palettes before it decode and do not verify:
    [identify] prints its name without the [.pal] suffix, returns status 0,
    and neither lists nor opens the embedded directory, in either mode. *)
Theorem identify_first_custom_match (env : Env) (img : image.Image)
    (before after : list os.File) (pal : os.File) (p : color.Palette)
    (custom_only : bool) :
  forallb (fun f => rejects img (os.content f)) before = true ->
  load_palette (os.content pal) = (p, None) ->
  has_palette img p = true ->
  identify env img (before ++ pal :: after) custom_only
  = ((0, None), [EvPrintln (found_line (os.Name pal))]).
Proof.
  intros Hbefore Hload Hpal. unfold identify.
  rewrite identify_custom_skip by assumption. cbn [identify_custom].
  now rewrite Hload, Hpal.
Qed.

Lemma identify_first_custom_match_witness :
  identify one_builtin_env (one_pixel (rgb 255 255 255))
    ([os.mkFile "dark.pal" (repeat x00 192)]
     ++ os.mkFile "dir/bw.pal" black_white_file :: [os.mkFile "short.pal" []])
    false
  = ((0, None), [EvPrintln (found_line "dir/bw.pal")]).
Proof.
  apply (identify_first_custom_match one_builtin_env (one_pixel (rgb 255 255 255))
           [os.mkFile "dark.pal" (repeat x00 192)] [os.mkFile "short.pal" []]
           (os.mkFile "dir/bw.pal" black_white_file)
           (fst (load_palette black_white_file)) false).
  - vm_compute. reflexivity.
  - vm_compute. reflexivity.
  - vm_compute. reflexivity.
Defined.

(** X14.  A custom palette too short to decode aborts [identify] with
    status 1 and the read error, when the palettes before it decode and do
    not verify: nothing is printed, and the palettes after it and the
    built-in ones are not tried. *)
Theorem identify_custom_decode_error_aborts (env : Env) (img : image.Image)
    (before after : list os.File) (pal : os.File) (custom_only : bool) :
  forallb (fun f => rejects img (os.content f)) before = true ->
  (List.length (os.content pal) < 192)%nat ->
  exists e, (e = EOF \/ e = ErrUnexpectedEOF) /\
    identify env img (before ++ pal :: after) custom_only = ((1, Some e), []).
Proof.
  intros Hbefore Hshort. unfold identify.
  rewrite identify_custom_skip by assumption. cbn [identify_custom].
  rewrite load_palette_short_read by assumption.
  eexists. split; [|reflexivity]. destruct (os.content pal); [now left | now right].
Qed.

Lemma identify_custom_decode_error_aborts_witness :
  exists e, (e = EOF \/ e = ErrUnexpectedEOF) /\
    identify one_builtin_env (one_pixel (rgb 255 255 255))
      ([os.mkFile "dark.pal" (repeat x00 192)]
       ++ os.mkFile "short.pal" [x01; x02] :: [os.mkFile "bw.pal" black_white_file])
      false
    = ((1, Some e), []).
Proof.
  apply (identify_custom_decode_error_aborts one_builtin_env
           (one_pixel (rgb 255 255 255))
           [os.mkFile "dark.pal" (repeat x00 192)]
           [os.mkFile "bw.pal" black_white_file]
           (os.mkFile "short.pal" [x01; x02]) false).
  - vm_compute. reflexivity.
  - apply Nat.ltb_lt. vm_compute. reflexivity.
Defined.

(** X15.  In custom-only mode, with at least one custom palette, all of
    which decode and none of which verifies the image, [identify] returns
    status 0 with no error and an empty trace: no line is printed and the
    embedded directory is not touched. *)
Theorem identify_custom_only_no_match_is_silent (env : Env) (img : image.Image)
    (custom_pals : list os.File) :
  custom_pals <> [] ->
  forallb (fun pal => rejects img (os.content pal)) custom_pals = true ->
  identify env img custom_pals true = ((0, None), []).
Proof. intros Hne H. now apply identify_custom_only_no_match. Qed.

Lemma identify_custom_only_no_match_is_silent_witness :
  identify one_builtin_env (one_pixel (rgb 10 10 10))
    [os.mkFile "bw.pal" black_white_file] true
  = ((0, None), []).
Proof.
  apply (identify_custom_only_no_match_is_silent one_builtin_env
           (one_pixel (rgb 10 10 10)) [os.mkFile "bw.pal" black_white_file]).
  - discriminate.
  - vm_compute. reflexivity.
Defined.

(** X16.  Every file [identify] opens in the embedded file system is a
    palette file of the listing: an entry that is not a directory, whose
    name has the extension [.pal], opened under [palettes/]; and nothing is
    opened at all in custom-only mode. *)
Theorem identify_opens_only_palette_files (env : Env) (img : image.Image)
    (custom_pals : list os.File) (custom_only : bool) (path : string) :
  In (EvOpen path) (snd (identify env img custom_pals custom_only)) ->
  custom_only = false /\
  exists entry,
    In entry (fst (palettes_ReadDir env "palettes")) /\
    fs.IsDir entry = false /\
    filepath.Ext (fs.Name entry) = ".pal" /\
    path = filepath.Join "palettes" (fs.Name entry).
Proof.
  unfold identify.
  destruct (identify_custom_outcomes img custom_pals) as [H|[(pal & _ & H)|(e & H)]];
    rewrite H; cbn [snd In];
    [| intros [Heq|[]]; discriminate | intros []].
  destruct custom_only; cbn [andb].
  - destruct custom_pals; cbn; intros [].
  - destruct (palettes_ReadDir env "palettes") as [entries [e|]]; cbn [fst snd app In].
    + intros [Heq|[]]. discriminate.
    + pose proof (identify_builtin_opens env img entries path) as Hopen.
      destruct (identify_builtin env img entries) as [[r|] evs]; cbn [snd app In] in *;
        intros [Heq|Hin]; try discriminate.
      * destruct (Hopen Hin) as (entry & He & Hc & Hp).
        split; [reflexivity|]. exists entry. unfold is_candidate in Hc.
        apply negb_true_iff, orb_false_iff in Hc as [Hd Hx].
        apply negb_false_iff, String.eqb_eq in Hx. auto.
      * apply in_app_or in Hin as [Hin|[Heq|[]]]; [|discriminate].
        destruct (Hopen Hin) as (entry & He & Hc & Hp).
        split; [reflexivity|]. exists entry. unfold is_candidate in Hc.
        apply negb_true_iff, orb_false_iff in Hc as [Hd Hx].
        apply negb_false_iff, String.eqb_eq in Hx. auto.
Qed.

Lemma identify_opens_only_palette_files_witness :
  false = false /\
  exists entry,
    In entry (fst (palettes_ReadDir one_builtin_env "palettes")) /\
    fs.IsDir entry = false /\
    filepath.Ext (fs.Name entry) = ".pal" /\
    "palettes/bw.pal" = filepath.Join "palettes" (fs.Name entry).
Proof.
  apply (identify_opens_only_palette_files one_builtin_env (one_pixel (rgb 10 10 10))
           [] false "palettes/bw.pal").
  vm_compute. right. left. reflexivity.
Defined.

(** X17.  [identify] prints nothing when it ends with an error: a printed
    line is always followed by status 0, and it is either the line of a
    match or the no-match line. *)
Theorem identify_prints_only_on_success (env : Env) (img : image.Image)
    (custom_pals : list os.File) (custom_only : bool) (line : string) :
  In (EvPrintln line) (snd (identify env img custom_pals custom_only)) ->
  fst (identify env img custom_pals custom_only) = (0, None) /\
  (line = no_match_line \/ exists name, line = found_line name).
Proof.
  unfold identify.
  destruct (identify_custom_outcomes img custom_pals) as [H|[(pal & _ & H)|(e & H)]];
    rewrite H; cbn [fst snd In];
    [| intros [Heq|[]]; injection Heq as <-; split; [reflexivity | right; eauto]
     | intros []].
  destruct custom_only; cbn [andb].
  - destruct custom_pals; cbn; intros [].
  - destruct (palettes_ReadDir env "palettes") as [entries [e|]]; cbn [fst snd app In].
    + intros [Heq|[]]. discriminate.
    + pose proof (identify_builtin_prints env img entries line) as Hprint.
      destruct (identify_builtin env img entries) as [[r|] evs];
        cbn [fst snd app In] in *; intros [Heq|Hin]; try discriminate.
      * destruct (Hprint Hin) as (Hr & entry & _ & Hl). injection Hr as ->.
        split; [reflexivity | right; eauto].
      * split; [reflexivity|].
        apply in_app_or in Hin as [Hin|[Heq|[]]].
        -- destruct (Hprint Hin) as (Hr & _). discriminate.
        -- injection Heq as <-. now left.
Qed.

Lemma identify_prints_only_on_success_witness :
  fst (identify one_builtin_env (one_pixel (rgb 10 10 10)) [] false) = (0, None) /\
  (no_match_line = no_match_line \/ exists name, no_match_line = found_line name).
Proof.
  apply (identify_prints_only_on_success one_builtin_env (one_pixel (rgb 10 10 10))
           [] false no_match_line).
  vm_compute. right. right. left. reflexivity.
Defined.

(** X18.  When no custom palette verifies, the first built-in palette file
    that verifies the image is reported: the entries before it are skipped
    (directories, other extensions) or open, decode and do not verify; then
    [identify] returns status 0 and the last thing it does is print the
    entry's name without the [.pal] suffix. *)
Theorem identify_first_builtin_match (env : Env) (img : image.Image)
    (custom_pals : list os.File) (before after : list fs.DirEntry)
    (entry : fs.DirEntry) (file : io.Reader) (p : color.Palette) :
  forallb (fun f => rejects img (os.content f)) custom_pals = true ->
  palettes_ReadDir env "palettes" = (before ++ entry :: after, None) ->
  forallb (fun en => negb (is_candidate en) || builtin_rejects env img en) before = true ->
  is_candidate entry = true ->
  palettes_Open env (filepath.Join "palettes" (fs.Name entry)) = (file, None) ->
  load_palette file = (p, None) ->
  has_palette img p = true ->
  fst (identify env img custom_pals false) = (0, None) /\
  exists evs,
    snd (identify env img custom_pals false)
    = evs ++ [EvPrintln (found_line (fs.Name entry))] /\
    forall line, ~ In (EvPrintln line) evs.
Proof.
  intros Hcustom Hdir Hbefore Hcand Hopen Hload Hpal. unfold identify.
  rewrite identify_custom_rejected by assumption. cbn [andb app]. rewrite Hdir.
  assert (Hrun : exists evs,
            identify_builtin env img (before ++ entry :: after)
            = (Some (0, None), evs ++ [EvPrintln (found_line (fs.Name entry))]) /\
            forall line, ~ In (EvPrintln line) evs).
  { clear Hdir. induction before as [|en before IH]; cbn [app].
    - exists [EvOpen (filepath.Join "palettes" (fs.Name entry))].
      split; [|intros line [Heq|[]]; discriminate].
      cbn [identify_builtin]. unfold is_candidate in Hcand.
      apply negb_true_iff in Hcand. now rewrite Hcand, Hopen, Hload, Hpal.
    - cbn [forallb] in Hbefore. apply andb_true_iff in Hbefore as [Hen Hbefore].
      destruct (IH Hbefore) as (evs & Hevs & Hno).
      cbn [identify_builtin]. unfold is_candidate in Hen.
      rewrite negb_involutive in Hen.
      destruct (fs.IsDir en || negb (filepath.Ext (fs.Name en) =? ".pal")%string).
      + now exists evs.
      + cbn [orb] in Hen. unfold builtin_rejects, rejects in Hen.
        destruct (palettes_Open env _) as [file' [e|]]; [discriminate|].
        destruct (load_palette file') as [p' [e|]]; [discriminate|].
        apply negb_true_iff in Hen. rewrite Hen, Hevs.
        exists (EvOpen (filepath.Join "palettes" (fs.Name en)) :: evs).
        split; [reflexivity|]. intros line [Heq|Hin]; [discriminate | now apply (Hno line)]. }
  destruct Hrun as (evs & -> & Hno). cbn [fst snd]. split; [reflexivity|].
  exists (EvReadDir "palettes" :: evs). split; [reflexivity|].
  intros line [Heq|Hin]; [discriminate | now apply (Hno line)].
Qed.

Lemma identify_first_builtin_match_witness :
  fst (identify one_builtin_env (one_pixel (rgb 255 255 255))
         [os.mkFile "dark.pal" (repeat x00 192)] false) = (0, None) /\
  exists evs,
    snd (identify one_builtin_env (one_pixel (rgb 255 255 255))
           [os.mkFile "dark.pal" (repeat x00 192)] false)
    = evs ++ [EvPrintln (found_line (fs.Name (fs.mkDirEntry "bw.pal" false)))] /\
    forall line, ~ In (EvPrintln line) evs.
Proof.
  apply (identify_first_builtin_match one_builtin_env (one_pixel (rgb 255 255 255))
           [os.mkFile "dark.pal" (repeat x00 192)] [] []
           (fs.mkDirEntry "bw.pal" false) black_white_file
           (fst (load_palette black_white_file))).
  - vm_compute. reflexivity.
  - reflexivity.
  - reflexivity.
  - vm_compute. reflexivity.
  - reflexivity.
  - vm_compute. reflexivity.
  - vm_compute. reflexivity.
Defined.

(** ** [remap]: how it ends *)

(** X19.  [remap] reports a palette that fails to decode, and then a
    failure to create the output file, before anything else: both give
    status 1 with the error met, whatever the image and the output path
    are, also when another path would end in a panic. *)
Theorem remap_early_errors (env : Env) (img : image.Image) (pal : io.Reader)
    (dst_path : string) :
  ((List.length pal < 192)%nat ->
   exists e, (e = EOF \/ e = ErrUnexpectedEOF) /\
             remap env img pal dst_path = Returns (1, Some e)) /\
  ((192 <= List.length pal)%nat ->
   forall e, os_Create env dst_path = Some e ->
             remap env img pal dst_path = Returns (1, Some e)).
Proof.
  split.
  - intros H. unfold remap. rewrite load_palette_short_read by assumption.
    eexists. split; [|reflexivity]. destruct pal; [now left | now right].
  - intros H e He. destruct (load_palette_full_read pal H) as (p & Hp & _).
    unfold remap. now rewrite Hp, He.
Qed.

(** The ways [remap] returns. *)
Lemma remap_outcome_cases (env : Env) (img : image.Image) (pal : io.Reader)
    (dst_path : string) (status : Z) (err : option error) :
  remap env img pal dst_path = Returns (status, err) ->
  (status = 0 /\ err = None) \/
  (status = 1 /\ exists e, err = Some e) \/
  (status = 2 /\ err = Some unsupported_output).
Proof.
  unfold remap.
  destruct (load_palette pal) as [p [e|]];
    [intros H; inversion H; subst; right; left; eauto|].
  destruct (os_Create env dst_path) as [e|];
    [intros H; inversion H; subst; right; left; eauto|].
  destruct (remap_image img p) as [remapped|]; [|discriminate].
  destruct (slice_from_1 (filepath.Ext dst_path)) as [ext|]; [|discriminate].
  cbv zeta.
  destruct (ext =? "png")%string;
    [destruct (png_Encode env remapped) as [e|]; intros H; inversion H; subst; eauto 6|].
  destruct ((ext =? "jpg")%string || (ext =? "jpeg")%string);
    [destruct (jpeg_Encode env remapped) as [e|]; intros H; inversion H; subst; eauto 6|].
  intros H; inversion H; subst. auto.
Qed.

(** X20.  When [remap] returns, it returns status 0 with no error, status 1
    with an error, or status 2 with the unsupported-format error. *)
Theorem remap_status_cases (env : Env) (img : image.Image) (pal : io.Reader)
    (dst_path : string) (status : Z) (err : option error) :
  remap env img pal dst_path = Returns (status, err) ->
  (status = 0 /\ err = None) \/
  (status = 1 /\ exists e, err = Some e) \/
  (status = 2 /\ err = Some unsupported_output).
Proof. apply remap_outcome_cases. Qed.

Lemma remap_status_cases_witness :
  (2 = 0 /\ Some unsupported_output = None) \/
  (2 = 1 /\ exists e, Some unsupported_output = Some e) \/
  (2 = 2 /\ Some unsupported_output = Some unsupported_output).
Proof.
  apply (remap_status_cases calm_env (one_pixel (rgb 10 10 10)) black_white_file
           "out.gif" 2 (Some unsupported_output)).
  vm_compute. reflexivity.
Defined.

(** X21.  Once the palette has decoded and the output file has been
    created, an output path for which [filepath.Ext] returns the empty
    string makes [remap] panic, whatever the image is: the call returns no
    status, and so never the unsupported-format error.  Either the new
    image is allocated and the slice [[1:]] of the empty extension is out
    of range, or the allocation itself has panicked before. *)
Theorem remap_panics_on_empty_extension (env : Env) (img : image.Image)
    (pal : io.Reader) (dst_path : string) :
  (192 <= List.length pal)%nat -> os_Create env dst_path = None ->
  filepath.Ext dst_path = "" ->
  (exists msg, remap env img pal dst_path = Panics msg) /\
  (forall status err, remap env img pal dst_path <> Returns (status, err)).
Proof.
  intros Hpal Hcreate Hext.
  assert (H : exists msg, remap env img pal dst_path = Panics msg).
  { destruct (image.fits (image.Bounds img)) eqn:Hfits.
    - eexists. now apply remap_no_extension.
    - destruct (load_palette_full_read pal Hpal) as (p & Hp & _).
      unfold remap. rewrite Hp, Hcreate. unfold remap_image, image.NewRGBA.
      rewrite Hfits. now eexists. }
  split; [assumption|]. destruct H as (msg & ->). discriminate.
Qed.

Lemma remap_panics_on_empty_extension_witness :
  (exists msg,
     remap calm_env (one_pixel (rgb 10 10 10)) black_white_file "pictures/out"
     = Panics msg) /\
  (forall status err,
     remap calm_env (one_pixel (rgb 10 10 10)) black_white_file "pictures/out"
     <> Returns (status, err)).
Proof.
  apply (remap_panics_on_empty_extension calm_env (one_pixel (rgb 10 10 10))
           black_white_file "pictures/out").
  - apply Nat.leb_le. vm_compute. reflexivity.
  - reflexivity.
  - reflexivity.
Defined.

(** X22.  An output path that ends in [.png], [.jpg] or [.jpeg] is encoded:
    the PNG encoder for the first, the JPEG encoder for the other two, is
    given the image [remap_image] builds from the decoded palette, and
    [remap] returns status 0 when the encoder succeeds and status 1 with the
    encoder's error when it fails. *)
Theorem remap_supported_extension (env : Env) (img : image.Image)
    (pal : io.Reader) (stem ext : string) :
  (192 <= List.length pal)%nat ->
  os_Create env (stem ++ String "." ext) = None ->
  image.fits (image.Bounds img) = true ->
  ext = "png" \/ ext = "jpg" \/ ext = "jpeg" ->
  exists remapped,
    remap_image img (fst (load_palette pal)) = Some remapped /\
    remap env img pal (stem ++ String "." ext)
    = match (if (ext =? "png")%string then png_Encode env remapped
             else jpeg_Encode env remapped) with
      | Some e => Returns (1, Some e)
      | None => Returns (0, None)
      end.
Proof.
  intros Hpal Hcreate Hfits Hext.
  destruct (remap_reaches_switch env img pal _ Hpal Hcreate Hfits)
    as (remapped & Hr & ->).
  exists remapped. split; [assumption|].
  rewrite Ext_suffix by (destruct Hext as [-> | [-> | ->]]; reflexivity).
  cbn [slice_from_1]. destruct Hext as [-> | [-> | ->]]; reflexivity.
Qed.

Lemma remap_supported_extension_witness :
  exists remapped,
    remap_image (one_pixel (rgb 10 10 10)) (fst (load_palette black_white_file))
    = Some remapped /\
    remap calm_env (one_pixel (rgb 10 10 10)) black_white_file
      ("my.pictures/out" ++ String "." "jpeg")
    = match (if ("jpeg" =? "png")%string then png_Encode calm_env remapped
             else jpeg_Encode calm_env remapped) with
      | Some e => Returns (1, Some e)
      | None => Returns (0, None)
      end.
Proof.
  apply (remap_supported_extension calm_env (one_pixel (rgb 10 10 10))
           black_white_file "my.pictures/out" "jpeg").
  - apply Nat.leb_le. vm_compute. reflexivity.
  - reflexivity.
  - reflexivity.
  - right. right. reflexivity.
Defined.

(** X23.  An output path that ends in a dot followed by anything else
    without a dot or a separator (another extension, an extension in upper
    case, nothing at all) is refused with status 2 and the
    unsupported-format error, once the palette has decoded and the file has
    been created. *)
Theorem remap_refuses_other_extensions (env : Env) (img : image.Image)
    (pal : io.Reader) (stem ext : string) :
  (192 <= List.length pal)%nat ->
  os_Create env (stem ++ String "." ext) = None ->
  image.fits (image.Bounds img) = true ->
  plain ext = true ->
  ext <> "png" -> ext <> "jpg" -> ext <> "jpeg" ->
  remap env img pal (stem ++ String "." ext) = Returns (2, Some unsupported_output).
Proof.
  intros Hpal Hcreate Hfits Hplain Hpng Hjpg Hjpeg.
  apply (remap_unsupported_extension env img pal _ "."%char ext); try assumption.
  now apply Ext_suffix.
Qed.

Lemma remap_refuses_other_extensions_witness :
  remap calm_env (one_pixel (rgb 10 10 10)) black_white_file ("out" ++ String "." "PNG")
  = Returns (2, Some unsupported_output).
Proof.
  apply (remap_refuses_other_extensions calm_env (one_pixel (rgb 10 10 10))
           black_white_file "out" "PNG").
  - apply Nat.leb_le. vm_compute. reflexivity.
  - reflexivity.
  - reflexivity.
  - reflexivity.
  - discriminate.
  - discriminate.
  - discriminate.
Defined.

(** ** [run]: the commands *)

Lemma open_custom_pals_stop (cli : Cli) (paths : list string) (stop : ending) :
  fst (open_custom_pals cli paths) = inl stop ->
  stop = Return 1 \/ stop = Return 2 \/ stop = Panic index_panic.
Proof.
  induction paths as [|path rest IH]; cbn [open_custom_pals fst]; [discriminate|].
  destruct (negb (filepath.Ext path =? ".pal")%string).
  - destruct (nth_error (os_Args cli) 3); cbn [fst]; intros H; injection H as <-; auto.
  - destruct (os_Open cli path) as [file [e|]]; cbn [fst];
      [intros H; injection H as <-; auto|].
    destruct (open_custom_pals cli rest) as [[stop'|files] evs]; cbn [fst] in *;
      [|discriminate].
    intros H. injection H as <-. now apply IH.
Qed.

Lemma identify_status_zero (e : Env) (img : image.Image) (custom_pals : list os.File)
    (custom_only : bool) :
  snd (fst (identify e img custom_pals custom_only)) = None ->
  fst (fst (identify e img custom_pals custom_only)) = 0.
Proof.
  destruct (identify_outcome_cases e img custom_pals custom_only)
    as [H|[(err & H)|(H & _)]]; rewrite H; cbn [fst snd]; [reflexivity | |]; discriminate.
Qed.

Lemma run_identify_status (cli : Cli) (s : Z) :
  fst (run_identify cli) = Return s -> usage_status s.
Proof.
  unfold run_identify, usage_status.
  destruct (pflag_custom_only cli _) as [status|custom_only args]; [discriminate|].
  destruct (List.length args =? 1)%nat; [intros H; injection H as <-; auto|].
  destruct (nth_error args 1) as [image_path|]; [|discriminate].
  destruct (load_image cli image_path) as [source [e|]];
    [intros H; injection H as <-; auto|].
  pose proof (open_custom_pals_stop cli (skipn 2 args)) as Hstop.
  destruct (open_custom_pals cli (skipn 2 args)) as [[stop|files] evs]; cbn [fst] in *.
  - intros ->. destruct (Hstop _ eq_refl) as [H|[H|H]]; inversion H; auto.
  - destruct (identify_outcome_cases (env cli) source files custom_only)
      as [H|[(err & H)|(H & _)]];
      destruct (identify (env cli) source files custom_only) as [[status err'] core];
      cbn [fst] in H; inversion H; subst; intros H'; injection H' as <-; auto.
Qed.

Lemma run_remap_call_status (cli : Cli) (source : image.Image) (pal : io.Reader)
    (dst_path : string) (evs : list run_event) (s : Z) :
  fst (run_remap_call cli source pal dst_path evs) = Return s -> usage_status s.
Proof.
  unfold run_remap_call, usage_status.
  pose proof (remap_outcome_cases (env cli) source pal dst_path) as Hcases.
  destruct (remap (env cli) source pal dst_path) as [[status [e|]]|msg]; cbn [fst];
    [| intros H; injection H as <-; auto | discriminate].
  intros H. injection H as <-.
  destruct (Hcases status (Some e) eq_refl) as [[-> _]|[[-> _]|[-> _]]]; auto.
Qed.

Lemma run_remap_status (cli : Cli) (s : Z) :
  fst (run_remap cli) = Return s -> usage_status s.
Proof.
  unfold run_remap.
  destruct (pflag_palette cli _) as [status|chosen_pal args]; [discriminate|].
  destruct (List.length args =? 1)%nat;
    [intros H; injection H as <-; unfold usage_status; auto|].
  destruct (nth_error args 1) as [image_path|]; [|discriminate].
  destruct (load_image cli image_path) as [source [e|]];
    [intros H; injection H as <-; unfold usage_status; auto|].
  cbv zeta.
  destruct (negb (chosen_pal =? "")%string).
  - destruct (filter _ _); [intros H; injection H as <-; unfold usage_status; auto|].
    destruct (contains_dot chosen_pal);
      [intros H; injection H as <-; unfold usage_status; auto|].
    destruct (palettes_ReadDir (env cli) "palettes") as [entries [e|]];
      [intros H; injection H as <-; unfold usage_status; auto|].
    destruct (find_builtin cli chosen_pal entries None) as [e|[pal|]];
      [intros H; injection H as <-; unfold usage_status; auto | |
       intros H; injection H as <-; unfold usage_status; auto].
    destruct (List.length args =? 2)%nat;
      [intros H; injection H as <-; unfold usage_status; auto|].
    destruct (nth_error args 2) as [dst_path|]; [|discriminate].
    apply run_remap_call_status.
  - destruct (List.length args =? 2)%nat;
      [intros H; injection H as <-; unfold usage_status; auto|].
    destruct (nth_error args 2) as [pal_path|]; [|discriminate].
    destruct (negb (filepath.Ext pal_path =? ".pal")%string);
      [intros H; injection H as <-; unfold usage_status; auto|].
    destruct (List.length args =? 3)%nat;
      [intros H; injection H as <-; unfold usage_status; auto|].
    destruct (os_Open cli pal_path) as [input_pal [e|]];
      [intros H; injection H as <-; unfold usage_status; auto|].
    destruct (nth_error args 3) as [dst_path|]; [|discriminate].
    apply run_remap_call_status.
Qed.

(** X24.  Whenever [run] returns, the status is 0, 1 or 2, whatever the
    command line, the files and the parser give. *)
Theorem run_status_range (cli : Cli) (s : Z) :
  fst (run cli) = Return s -> s = 0 \/ s = 1 \/ s = 2.
Proof.
  unfold run.
  destruct (os_Args cli) as [|prog [|command rest]]; [discriminate | |].
  - intros H. injection H as <-. auto.
  - destruct (negb (is_command command) && negb (command =? HELP)%string);
      [intros H; injection H as <-; auto|].
    destruct (command =? IDENTIFY)%string; [apply run_identify_status|].
    destruct (command =? REMAP)%string; [apply run_remap_status|].
    destruct (command =? LIST)%string.
    { unfold run_list. destruct (list_walk _) as [[e|] evs];
        intros H; injection H as <-; auto. }
    destruct (command =? HELP)%string; [|intros H; injection H as <-; auto].
    unfold run_help. destruct (_ =? 2)%nat; [intros H; injection H as <-; auto|].
    destruct (nth_error _ 2) as [topic|]; [|discriminate].
    destruct (is_command topic); intros H; injection H as <-; auto.
Qed.

Lemma run_status_range_witness : 2 = 0 \/ 2 = 1 \/ 2 = 2.
Proof.
  apply (run_status_range (example_cli ["nespal"; "convert"]) 2).
  vm_compute. reflexivity.
Defined.

Lemma open_custom_pals_all (cli : Cli) (paths : list string) :
  (forall path, In path paths ->
     filepath.Ext path = ".pal" /\ snd (os_Open cli path) = None) ->
  open_custom_pals cli paths
  = (inr (map (fun path => os.mkFile path (fst (os_Open cli path))) paths),
     map RunOpen paths).
Proof.
  induction paths as [|path rest IH]; intros H; cbn [open_custom_pals map];
    [reflexivity|].
  destruct (H path (or_introl eq_refl)) as [Hext Hopen]. rewrite Hext.
  change (negb (".pal" =? ".pal")%string) with false. cbv iota.
  destruct (os_Open cli path) as [file err]. cbn [fst snd] in *. subst err.
  rewrite IH by (intros p Hp; apply H; now right). reflexivity.
Qed.

Lemma open_custom_pals_bad (cli : Cli) (before after : list string) (bad shown : string) :
  (forall path, In path before ->
     filepath.Ext path = ".pal" /\ snd (os_Open cli path) = None) ->
  filepath.Ext bad <> ".pal" ->
  nth_error (os_Args cli) 3 = Some shown ->
  open_custom_pals cli (before ++ bad :: after)
  = (inl (Return 2), map RunOpen before ++ [RunLogf (unsupported_palette cli shown)]).
Proof.
  intros Hbefore Hbad Hshown.
  induction before as [|path rest IH]; cbn [open_custom_pals map app].
  - apply String.eqb_neq in Hbad. now rewrite Hbad, Hshown.
  - destruct (Hbefore path (or_introl eq_refl)) as [Hext Hopen]. rewrite Hext.
    change (negb (".pal" =? ".pal")%string) with false. cbv iota.
    destruct (os_Open cli path) as [file err]. cbn [fst snd] in *. subst err.
    rewrite IH by (intros p Hp; apply Hbefore; now right). reflexivity.
Qed.

Lemma run_on_identify (cli : Cli) (prog : string) (rest : list string) :
  os_Args cli = prog :: IDENTIFY :: rest -> run cli = run_identify cli.
Proof. intros H. unfold run. rewrite H. reflexivity. Qed.

Lemma run_on_remap (cli : Cli) (prog : string) (rest : list string) :
  os_Args cli = prog :: REMAP :: rest -> run cli = run_remap cli.
Proof. intros H. unfold run. rewrite H. reflexivity. Qed.

Lemma run_on_list (cli : Cli) (prog : string) (rest : list string) :
  os_Args cli = prog :: LIST :: rest -> run cli = run_list cli.
Proof. intros H. unfold run. rewrite H. reflexivity. Qed.

(** X25.  The [identify] command hands to [identify] the decoded image, the
    files named by the arguments after the image path, in the order given,
    and the value of the flag; it returns the status of [identify]. *)
Theorem run_identify_dispatch (cli : Cli) (prog arg0 image_path : string)
    (rest paths : list string) (custom_only : bool) (source : image.Image) :
  os_Args cli = prog :: IDENTIFY :: rest ->
  pflag_custom_only cli (IDENTIFY :: rest)
  = Parsed custom_only (arg0 :: image_path :: paths) ->
  load_image cli image_path = (source, None) ->
  (forall path, In path paths ->
     filepath.Ext path = ".pal" /\ snd (os_Open cli path) = None) ->
  fst (run cli)
  = Return (fst (fst (identify (env cli) source
                        (map (fun path => os.mkFile path (fst (os_Open cli path))) paths)
                        custom_only))) /\
  forall ev,
    In ev (snd (identify (env cli) source
                  (map (fun path => os.mkFile path (fst (os_Open cli path))) paths)
                  custom_only)) ->
    In (RunCore ev) (snd (run cli)).
Proof.
  intros Hargs Hparse Himage Hpaths.
  rewrite (run_on_identify cli prog rest Hargs). unfold run_identify.
  rewrite Hargs. cbn [tl]. rewrite Hparse. cbn [List.length Nat.eqb nth_error skipn].
  rewrite Himage, (open_custom_pals_all cli paths Hpaths).
  pose proof (identify_status_zero (env cli) source
                (map (fun path => os.mkFile path (fst (os_Open cli path))) paths)
                custom_only) as Hzero.
  destruct (identify _ _ _ _) as [[status [e|]] core]; cbn [fst snd] in *.
  - split; [reflexivity|]. intros ev Hev. right.
    apply in_or_app. right. apply in_or_app. left. now apply in_map.
  - rewrite Hzero by reflexivity. split; [reflexivity|]. intros ev Hev. right.
    apply in_or_app. right. now apply in_map.
Qed.

Lemma run_identify_dispatch_witness :
  fst (run (example_cli ["nespal"; "identify"; "art.png"; "mine.pal"]))
  = Return (fst (fst (identify (env (example_cli ["nespal"; "identify"; "art.png"; "mine.pal"]))
                        (one_pixel (rgb 255 255 255))
                        (map (fun path =>
                                os.mkFile path
                                  (fst (os_Open (example_cli ["nespal"; "identify"; "art.png"; "mine.pal"]) path)))
                             ["mine.pal"])
                        false))) /\
  forall ev,
    In ev (snd (identify (env (example_cli ["nespal"; "identify"; "art.png"; "mine.pal"]))
                  (one_pixel (rgb 255 255 255))
                  (map (fun path =>
                          os.mkFile path
                            (fst (os_Open (example_cli ["nespal"; "identify"; "art.png"; "mine.pal"]) path)))
                       ["mine.pal"])
                  false)) ->
    In (RunCore ev) (snd (run (example_cli ["nespal"; "identify"; "art.png"; "mine.pal"]))).
Proof.
  apply (run_identify_dispatch (example_cli ["nespal"; "identify"; "art.png"; "mine.pal"])
           "nespal" "identify" "art.png" ["art.png"; "mine.pal"] ["mine.pal"] false
           (one_pixel (rgb 255 255 255))).
  - reflexivity.
  - reflexivity.
  - reflexivity.
  - intros path [<-|[]]. split; reflexivity.
Defined.

(** X26.  A custom palette path whose extension is not [.pal] stops the
    [identify] command with status 2 before any palette is decoded: the
    paths before it have been opened, [identify] is not called, and the
    message names the fourth element of the command line, which need not
    be the path at fault. *)
Theorem run_identify_refuses_extension (cli : Cli) (prog arg0 image_path bad shown : string)
    (rest before after : list string) (custom_only : bool) (source : image.Image) :
  os_Args cli = prog :: IDENTIFY :: rest ->
  pflag_custom_only cli (IDENTIFY :: rest)
  = Parsed custom_only (arg0 :: image_path :: before ++ bad :: after) ->
  load_image cli image_path = (source, None) ->
  (forall path, In path before ->
     filepath.Ext path = ".pal" /\ snd (os_Open cli path) = None) ->
  filepath.Ext bad <> ".pal" ->
  nth_error (os_Args cli) 3 = Some shown ->
  run cli
  = (Return 2,
     RunLoadImage image_path :: map RunOpen before
       ++ [RunLogf (unsupported_palette cli shown)]).
Proof.
  intros Hargs Hparse Himage Hbefore Hbad Hshown.
  rewrite (run_on_identify cli prog rest Hargs). unfold run_identify.
  rewrite Hargs. cbn [tl]. rewrite Hparse. cbn [List.length Nat.eqb nth_error skipn].
  rewrite Himage.
  now rewrite (open_custom_pals_bad cli before after bad shown Hbefore Hbad Hshown).
Qed.

Lemma run_identify_refuses_extension_witness :
  run (example_cli ["nespal"; "identify"; "art.png"; "a.pal"; "b.txt"; "c.pal"])
  = (Return 2,
     RunLoadImage "art.png" :: map RunOpen ["a.pal"]
       ++ [RunLogf (unsupported_palette
                      (example_cli ["nespal"; "identify"; "art.png"; "a.pal"; "b.txt"; "c.pal"])
                      "a.pal")]).
Proof.
  apply (run_identify_refuses_extension
           (example_cli ["nespal"; "identify"; "art.png"; "a.pal"; "b.txt"; "c.pal"])
           "nespal" "identify" "art.png" "b.txt" "a.pal"
           ["art.png"; "a.pal"; "b.txt"; "c.pal"] ["a.pal"] ["c.pal"] false
           (one_pixel (rgb 255 255 255))).
  - reflexivity.
  - reflexivity.
  - reflexivity.
  - intros path [<-|[]]. split; reflexivity.
  - vm_compute. discriminate.
  - reflexivity.
Defined.

Lemma remap_status_zero (e : Env) (img : image.Image) (pal : io.Reader)
    (dst_path : string) (status : Z) :
  remap e img pal dst_path = Returns (status, None) -> status = 0.
Proof.
  intros H. destruct (remap_outcome_cases e img pal dst_path status None H)
    as [[-> _]|[[_ (err & Herr)]|[_ Herr]]]; [reflexivity | |]; discriminate.
Qed.

Lemma run_remap_call_ending (cli : Cli) (source : image.Image) (pal : io.Reader)
    (dst_path : string) (evs : list run_event) :
  fst (run_remap_call cli source pal dst_path evs)
  = ending_of_remap (remap (env cli) source pal dst_path).
Proof.
  unfold run_remap_call, ending_of_remap.
  pose proof (remap_status_zero (env cli) source pal dst_path) as Hzero.
  destruct (remap (env cli) source pal dst_path) as [[status [e|]]|msg]; cbn [fst];
    [reflexivity | | reflexivity].
  now rewrite (Hzero status eq_refl).
Qed.

(** X27.  The [remap] command without the palette flag decodes the image
    named first, opens the palette named second, which must have the
    extension [.pal], and calls [remap] with the path named third; it
    returns the status of [remap], and panics when [remap] does. *)
Theorem run_remap_dispatch (cli : Cli) (prog arg0 image_path pal_path dst_path : string)
    (rest more : list string) (source : image.Image) (pal : io.Reader) :
  os_Args cli = prog :: REMAP :: rest ->
  pflag_palette cli (REMAP :: rest)
  = Parsed "" (arg0 :: image_path :: pal_path :: dst_path :: more) ->
  load_image cli image_path = (source, None) ->
  filepath.Ext pal_path = ".pal" ->
  os_Open cli pal_path = (pal, None) ->
  fst (run cli) = ending_of_remap (remap (env cli) source pal dst_path).
Proof.
  intros Hargs Hparse Himage Hext Hopen.
  rewrite (run_on_remap cli prog rest Hargs). unfold run_remap.
  rewrite Hargs. cbn [tl]. rewrite Hparse. cbn [List.length Nat.eqb nth_error].
  rewrite Himage. cbv zeta.
  change (negb ("" =? "")%string) with false. cbv iota.
  rewrite Hext. change (negb (".pal" =? ".pal")%string) with false. cbv iota.
  rewrite Hopen. apply run_remap_call_ending.
Qed.

Lemma run_remap_dispatch_witness :
  fst (run (example_cli ["nespal"; "remap"; "art.png"; "mine.pal"; "out.png"]))
  = ending_of_remap
      (remap (env (example_cli ["nespal"; "remap"; "art.png"; "mine.pal"; "out.png"]))
             (one_pixel (rgb 255 255 255)) black_white_file "out.png").
Proof.
  apply (run_remap_dispatch
           (example_cli ["nespal"; "remap"; "art.png"; "mine.pal"; "out.png"])
           "nespal" "remap" "art.png" "mine.pal" "out.png"
           ["art.png"; "mine.pal"; "out.png"] []); reflexivity.
Defined.

Lemma find_builtin_none_after (cli : Cli) (chosen_pal : string)
    (after : list fs.DirEntry) (pal : option io.Reader) :
  (forall d, In d after -> names_builtin cli chosen_pal d = false) ->
  find_builtin cli chosen_pal after pal = inr pal.
Proof.
  induction after as [|d after IH]; intros H; cbn [find_builtin]; [reflexivity|].
  pose proof (H d (or_introl eq_refl)) as Hd. unfold names_builtin in Hd.
  destruct (fs.IsDir d); [apply IH; intros d' Hd'; apply H; now right|].
  cbn [negb andb] in Hd. rewrite Hd. apply IH. intros d' Hd'. apply H. now right.
Qed.

Lemma find_builtin_before (cli : Cli) (chosen_pal : string)
    (before rest : list fs.DirEntry) :
  (forall d, In d before -> names_builtin cli chosen_pal d = true ->
     snd (palettes_Open (env cli) (filepath.Join "palettes" (fs.Name d))) = None) ->
  forall pal, exists pal',
    find_builtin cli chosen_pal (before ++ rest) pal
    = find_builtin cli chosen_pal rest pal'.
Proof.
  induction before as [|d before IH]; intros H pal; cbn [app find_builtin];
    [now exists pal|].
  assert (Hrest : forall d', In d' before -> names_builtin cli chosen_pal d' = true ->
            snd (palettes_Open (env cli) (filepath.Join "palettes" (fs.Name d'))) = None)
    by (intros d' Hd'; apply H; now right).
  pose proof (H d (or_introl eq_refl)) as Hd. unfold names_builtin in Hd.
  destruct (fs.IsDir d); [now apply IH|]. cbn [negb andb] in Hd.
  destruct (strings.HasSuffix (fs.Name d) ".pal" && _); [|now apply IH].
  destruct (palettes_Open (env cli) _) as [file err]. cbn [snd] in Hd.
  rewrite (Hd eq_refl). now apply IH.
Qed.

(** X28.  With the flag [--palette], the [remap] command uses the last
    entry of the embedded directory whose name, without [.pal], equals the
    flag value under case folding: it opens that file, takes the output
    path from the argument after the image, and returns the status of
    [remap].  The flag value has no dot and is not made of spaces only. *)
Theorem run_remap_builtin_palette (cli : Cli)
    (prog arg0 image_path dst_path chosen_pal : string) (rest more : list string)
    (source : image.Image) (before after : list fs.DirEntry) (d : fs.DirEntry)
    (pal : io.Reader) :
  os_Args cli = prog :: REMAP :: rest ->
  pflag_palette cli (REMAP :: rest)
  = Parsed chosen_pal (arg0 :: image_path :: dst_path :: more) ->
  chosen_pal <> "" ->
  filter (fun r => negb (unicode_IsSpace cli r)) (runes cli chosen_pal) <> [] ->
  contains_dot chosen_pal = false ->
  load_image cli image_path = (source, None) ->
  palettes_ReadDir (env cli) "palettes" = (before ++ d :: after, None) ->
  (forall d', In d' before -> names_builtin cli chosen_pal d' = true ->
     snd (palettes_Open (env cli) (filepath.Join "palettes" (fs.Name d'))) = None) ->
  names_builtin cli chosen_pal d = true ->
  palettes_Open (env cli) (filepath.Join "palettes" (fs.Name d)) = (pal, None) ->
  (forall d', In d' after -> names_builtin cli chosen_pal d' = false) ->
  fst (run cli) = ending_of_remap (remap (env cli) source pal dst_path).
Proof.
  intros Hargs Hparse Hname Hspace Hdot Himage Hdir Hbefore Hd Hopen Hafter.
  rewrite (run_on_remap cli prog rest Hargs). unfold run_remap.
  rewrite Hargs. cbn [tl]. rewrite Hparse. cbn [List.length Nat.eqb nth_error].
  rewrite Himage. cbv zeta.
  apply String.eqb_neq in Hname. rewrite Hname. cbn [negb].
  destruct (filter _ _) as [|r rs]; [congruence|].
  rewrite Hdot, Hdir.
  destruct (find_builtin_before cli chosen_pal before (d :: after) Hbefore None)
    as (pal' & ->).
  cbn [find_builtin]. unfold names_builtin in Hd.
  destruct (fs.IsDir d); [discriminate|]. cbn [negb andb] in Hd. rewrite Hd, Hopen.
  rewrite (find_builtin_none_after cli chosen_pal after (Some pal) Hafter).
  apply run_remap_call_ending.
Qed.

Lemma run_remap_builtin_palette_witness :
  fst (run (example_cli_palette ["art.png"; "out.png"]))
  = ending_of_remap
      (remap (env (example_cli_palette ["art.png"; "out.png"]))
             (one_pixel (rgb 255 255 255)) black_white_file "out.png").
Proof.
  apply (run_remap_builtin_palette (example_cli_palette ["art.png"; "out.png"])
           "nespal" "remap" "art.png" "out.png" "BW"
           ["--palette=BW"; "art.png"; "out.png"] []
           (one_pixel (rgb 255 255 255)) [] [] (fs.mkDirEntry "bw.pal" false)
           black_white_file).
  - reflexivity.
  - reflexivity.
  - discriminate.
  - vm_compute. discriminate.
  - reflexivity.
  - reflexivity.
  - reflexivity.
  - intros d' [].
  - vm_compute. reflexivity.
  - reflexivity.
  - intros d' [].
Defined.

Lemma list_walk_clean (entries : list (fs.DirEntry * option error)) :
  (forall entry, In entry entries -> snd entry = None) ->
  list_walk entries
  = (None,
     map (fun d => RunPrintln (strings.TrimSuffix (fs.Name d) ".pal"))
         (filter (fun d => negb (fs.IsDir d) && strings.HasSuffix (fs.Name d) ".pal")
                 (map fst entries))).
Proof.
  induction entries as [|[d err] rest IH]; intros H; cbn [list_walk map filter fst];
    [reflexivity|].
  pose proof (H (d, err) (or_introl eq_refl)) as Hd. cbn [snd] in Hd. subst err.
  rewrite IH by (intros entry Hin; apply H; now right).
  destruct (fs.IsDir d); cbn [negb andb]; [reflexivity|].
  now destruct (strings.HasSuffix (fs.Name d) ".pal").
Qed.

(** X29.  When the walk of the embedded file system meets no error, the
    [list] command prints, in the order of the walk, the name without
    [.pal] of every entry that is not a directory and whose name ends in
    [.pal], prints nothing else, and returns status 0. *)
Theorem run_list_prints_palette_names (cli : Cli) (prog : string) (rest : list string) :
  os_Args cli = prog :: LIST :: rest ->
  (forall entry, In entry (palettes_Walk cli) -> snd entry = None) ->
  run cli
  = (Return 0,
     RunWalk ::
     map (fun d => RunPrintln (strings.TrimSuffix (fs.Name d) ".pal"))
         (filter (fun d => negb (fs.IsDir d) && strings.HasSuffix (fs.Name d) ".pal")
                 (map fst (palettes_Walk cli)))).
Proof.
  intros Hargs Hwalk. rewrite (run_on_list cli prog rest Hargs). unfold run_list.
  now rewrite list_walk_clean.
Qed.

Lemma run_list_prints_palette_names_witness :
  run (example_cli ["nespal"; "list"])
  = (Return 0,
     RunWalk ::
     map (fun d => RunPrintln (strings.TrimSuffix (fs.Name d) ".pal"))
         (filter (fun d => negb (fs.IsDir d) && strings.HasSuffix (fs.Name d) ".pal")
                 (map fst (palettes_Walk (example_cli ["nespal"; "list"]))))).
Proof.
  apply (run_list_prints_palette_names (example_cli ["nespal"; "list"]) "nespal" []).
  - reflexivity.
  - intros entry [<-|[<-|[<-|[<-|[]]]]]; reflexivity.
Defined.

(** X30.  The older [remap] ends as the newer one does when the command
    line holds both paths and the palette file opens; when the command line
    stops after the palette path, it panics on [os.Args[4]] once the
    palette has decoded. *)
Theorem remap_old_agrees_or_panics (e : Env)
    (os_Open : string -> io.Reader * option error) (os_Args : list string)
    (img : image.Image) (pal_path : string) (pal : io.Reader) :
  nth_error os_Args 3 = Some pal_path ->
  os_Open pal_path = (pal, None) ->
  (forall dst_path, nth_error os_Args 4 = Some dst_path ->
     remap_old e os_Open os_Args img = remap e img pal dst_path) /\
  (nth_error os_Args 4 = None -> (192 <= List.length pal)%nat ->
     remap_old e os_Open os_Args img = Panics index_panic).
Proof.
  intros Hpal Hopen. unfold remap_old, load_palette_path. rewrite Hpal, Hopen. split.
  - intros dst_path ->. unfold remap. now destruct (load_palette pal) as [p [err|]].
  - intros -> Hlen. destruct (load_palette_full_read pal Hlen) as (p & -> & _).
    reflexivity.
Qed.

Lemma remap_old_agrees_or_panics_witness :
  (forall dst_path,
     nth_error ["nespal"; "remap"; "art.png"; "mine.pal"] 4 = Some dst_path ->
     remap_old calm_env (fun _ => (black_white_file, None))
       ["nespal"; "remap"; "art.png"; "mine.pal"] (one_pixel (rgb 10 10 10))
     = remap calm_env (one_pixel (rgb 10 10 10)) black_white_file dst_path) /\
  (nth_error ["nespal"; "remap"; "art.png"; "mine.pal"] 4 = None ->
   (192 <= List.length black_white_file)%nat ->
   remap_old calm_env (fun _ => (black_white_file, None))
     ["nespal"; "remap"; "art.png"; "mine.pal"] (one_pixel (rgb 10 10 10))
   = Panics index_panic).
Proof.
  apply (remap_old_agrees_or_panics calm_env (fun _ => (black_white_file, None))
           ["nespal"; "remap"; "art.png"; "mine.pal"] (one_pixel (rgb 10 10 10))
           "mine.pal" black_white_file); reflexivity.
Defined.
